(** * Athlete monitor dashboard: telemetry ingestion and session state

    A shallow embedding of the JavaScript modules of the dashboard
    (js/websocket.js, js/storage.js, js/dashboard.js, js/charts.js) and the
    properties of its specification.

    Conventions of the embedding.
    - A JavaScript number is a [number]: NaN, the two infinities, or a finite
      value carried as the rational it is equal to.  The arithmetic is that
      of binary64: sums, differences and quotients are rounded to the nearest
      binary64 number, a tie going to the even one, and overflow to an
      infinity ([binary64]).  The sign of zero is outside the model.
    - Counters, timestamps and delays in milliseconds are integers ([Z]).
    - A decoded JSON payload is a [jsval]; objects are association lists in
      property order.
    - A string holding JSON is a list of lexical tokens ([text]); a string
      literal and a number literal are one token each. *)

From Stdlib Require Import List String Ascii Bool ZArith QArith Qround Qabs Qpower.
From Stdlib Require Import Lia Lqa Arith.
Import ListNotations.

Set Warnings "-register-all".

Local Open Scope string_scope.
Local Open Scope Z_scope.

(** ** JavaScript values *)

Module JS.

Inductive number : Type :=
| NaN
| PosInf
| NegInf
| Fin (q : Q).

Inductive jsval : Type :=
| VUndefined
| VNull
| VBool (b : bool)
| VNum (n : number)
| VStr (s : string)
| VArr (items : list jsval) (own : list (string * jsval))
| VObj (props : list (string * jsval)).

Definition object := list (string * jsval).

(** [typeof v] *)
Definition typeof (v : jsval) : string :=
  match v with
  | VUndefined => "undefined"
  | VNull => "object"
  | VBool _ => "boolean"
  | VNum _ => "number"
  | VStr _ => "string"
  | VArr _ _ => "object"
  | VObj _ => "object"
  end.

(** Own property lookup in an object literal. *)
Fixpoint lookup (k : string) (ps : object) : option jsval :=
  match ps with
  | [] => None
  | (k', v) :: rest => if String.eqb k k' then Some v else lookup k rest
  end.

(** [o[k] = v] on an object: an existing key keeps its position. *)
Fixpoint set_prop (k : string) (v : jsval) (ps : object) : object :=
  match ps with
  | [] => [(k, v)]
  | (k', v') :: rest =>
      if String.eqb k k' then (k, v) :: rest else (k', v') :: set_prop k v rest
  end.

(** [{...a, ...b}]: the properties of [b] are assigned over those of [a]. *)
Definition spread (a b : object) : object :=
  fold_left (fun acc kv => set_prop (fst kv) (snd kv) acc) b a.

Definition or_undefined (o : option jsval) : jsval :=
  match o with Some x => x | None => VUndefined end.

(** [v.k] for a named field [k] (not an index, [length] or an inherited
    method).  Reading a property of null or undefined throws a TypeError,
    rendered by [None]; an array has the named properties assigned to it
    ([own]) and a primitive has none. *)
Definition get (v : jsval) (k : string) : option jsval :=
  match v with
  | VUndefined | VNull => None
  | VObj ps => Some (or_undefined (lookup k ps))
  | VArr _ own => Some (or_undefined (lookup k own))
  | VBool _ | VNum _ | VStr _ => Some VUndefined
  end.

(** [v.k = x] in strict-mode code (a class body): a TypeError, rendered by
    [None], unless [v] is an object or an array. *)
Definition assign (v : jsval) (k : string) (x : jsval) : option jsval :=
  match v with
  | VObj ps => Some (VObj (set_prop k x ps))
  | VArr items own => Some (VArr items (set_prop k x own))
  | _ => None
  end.

(** Truthiness, as tested by [if (v)] and [!v]. *)
Definition truthy (v : jsval) : bool :=
  match v with
  | VUndefined | VNull => false
  | VBool b => b
  | VNum NaN => false
  | VNum (Fin q) => negb (Qeq_bool q 0)
  | VNum _ => true
  | VStr s => negb (String.eqb s "")
  | VArr _ _ | VObj _ => true
  end.

(** *** Arithmetic on numbers *)

Definition isNaN (n : number) : bool :=
  match n with NaN => true | _ => false end.

(** [a <= b] *)
Definition le (a b : number) : bool :=
  match a, b with
  | NaN, _ | _, NaN => false
  | NegInf, _ => true
  | _, PosInf => true
  | Fin p, Fin q => Qle_bool p q
  | _, _ => false
  end.

(** [a >= b] *)
Definition ge (a b : number) : bool := le b a.

(** [a < b] *)
Definition lt (a b : number) : bool :=
  match a, b with
  | NaN, _ | _, NaN => false
  | _, _ => negb (le b a)
  end.

(** [a > b] *)
Definition gt (a b : number) : bool := lt b a.

(** *** Binary64 rounding *)

(** The nearest integer to a rational, a tie going to the even one. *)
Definition round_half_even (x : Q) : Z :=
  let f := Qfloor x in
  match (x - inject_Z f ?= 1 # 2)%Q with
  | Lt => f
  | Gt => f + 1
  | Eq => if Z.even f then f else f + 1
  end.

(** The exponent of the leading bit of a rational that is not 0: the [k]
    with [2 ^ k <= |q| < 2 ^ (k + 1)]. *)
Definition ilog2 (q : Q) : Z :=
  let k := Z.log2 (Z.abs (Qnum q)) - Z.log2 (Zpos (Qden q)) in
  if Qle_bool (2 ^ k) (Qabs q) then k else k - 1.

(** The exponent of the last bit of the binary64 numbers of the magnitude of
    [q]: 52 bits under the leading one, and -1074 for the subnormal
    numbers. *)
Definition quantum (q : Q) : Z := Z.max (ilog2 q - 52) (-1074).

(** The binary64 number nearest to a rational, a tie going to the one whose
    last bit is 0; an infinity from [2 ^ 1024 - 2 ^ 970] on. *)
Definition binary64 (q : Q) : number :=
  if Qeq_bool q 0 then Fin 0
  else
    let e := quantum q in
    let r := Qred (inject_Z (round_half_even (q / 2 ^ e)) * 2 ^ e) in
    if Qle_bool (2 ^ 1024) (Qabs r) then
      (if Qle_bool 0 q then PosInf else NegInf)
    else Fin r.

(** The number as an operand of the arithmetic: a finite value is read as
    the binary64 number nearest to it, which is itself when it is one. *)
Definition to_binary64 (a : number) : number :=
  match a with
  | Fin q => binary64 q
  | other => other
  end.

(** [a + b]: the sum of the two binary64 numbers, rounded to binary64. *)
Definition add (a b : number) : number :=
  match to_binary64 a, to_binary64 b with
  | NaN, _ | _, NaN => NaN
  | PosInf, NegInf | NegInf, PosInf => NaN
  | PosInf, _ | _, PosInf => PosInf
  | NegInf, _ | _, NegInf => NegInf
  | Fin p, Fin q => binary64 (p + q)
  end.

(** [- a], and [a - b] *)
Definition opp (a : number) : number :=
  match a with
  | NaN => NaN
  | PosInf => NegInf
  | NegInf => PosInf
  | Fin p => Fin (- p)
  end.

Definition sub (a b : number) : number := add a (opp b).

(** [a / b]: the quotient of the two binary64 numbers, rounded to
    binary64. *)
Definition div (a b : number) : number :=
  match to_binary64 a, to_binary64 b with
  | NaN, _ | _, NaN => NaN
  | Fin p, Fin q =>
      if Qeq_bool q 0 then
        (if Qeq_bool p 0 then NaN
         else if Qle_bool 0 p then PosInf else NegInf)
      else binary64 (p / q)
  | Fin _, _ => Fin 0
  | PosInf, Fin q => if Qle_bool 0 q then PosInf else NegInf
  | NegInf, Fin q => if Qle_bool 0 q then NegInf else PosInf
  | _, _ => NaN
  end.

(** [Math.round]: the nearest integer, a tie going up. *)
Definition Math_round (a : number) : number :=
  match a with
  | Fin p => Fin (inject_Z (Qfloor (p + (1 # 2))))
  | other => other
  end.

(** [Math.min(a, b)] and [Math.max(a, b)]: NaN if either is NaN. *)
Definition min2 (a b : number) : number :=
  match a, b with
  | NaN, _ | _, NaN => NaN
  | _, _ => if le a b then a else b
  end.

Definition max2 (a b : number) : number :=
  match a, b with
  | NaN, _ | _, NaN => NaN
  | _, _ => if le a b then b else a
  end.

(** [Math.min(...l)] and [Math.max(...l)]. *)
Definition Math_min (l : list number) : number := fold_left min2 l PosInf.
Definition Math_max (l : list number) : number := fold_left max2 l NegInf.

(** *** Dates *)

(** Year, month and day of the day [z] days after 1970-01-01, in the
    proleptic Gregorian calendar. *)
Definition civil_from_days (z : Z) : Z * Z * Z :=
  let z := z + 719468 in
  let era := z / 146097 in
  let doe := z - era * 146097 in
  let yoe := (doe - doe / 1460 + doe / 36524 - doe / 146096) / 365 in
  let doy := doe - (365 * yoe + yoe / 4 - yoe / 100) in
  let mp := (5 * doy + 2) / 153 in
  let d := doy - (153 * mp + 2) / 5 + 1 in
  let m := if mp <? 10 then mp + 3 else mp - 9 in
  let y := yoe + era * 400 + (if m <=? 2 then 1 else 0) in
  (y, m, d).

Definition digit (n : Z) : ascii := ascii_of_nat (48 + Z.to_nat (n mod 10)).

(** The last [width] decimal digits of [n], zero padded. *)
Fixpoint digits (width : nat) (n : Z) : string :=
  match width with
  | O => EmptyString
  | S w => digits w (n / 10) ++ String (digit n) EmptyString
  end.

(** [new Date(ms).toISOString()] for an instant in the years 0000 to
    9999. *)
Definition toISOString (ms : Z) : string :=
  let day := ms / 86400000 in
  let rest := ms mod 86400000 in
  let '(y, m, d) := civil_from_days day in
  digits 4 y ++ "-" ++ digits 2 m ++ "-" ++ digits 2 d ++ "T" ++
  digits 2 (rest / 3600000) ++ ":" ++ digits 2 (rest / 60000 mod 60) ++ ":" ++
  digits 2 (rest / 1000 mod 60) ++ "." ++ digits 3 (rest mod 1000) ++ "Z".

(** The number a JavaScript integer literal or counter denotes. *)
Definition of_Z (z : Z) : number := Fin (inject_Z z).
Definition of_nat (n : nat) : number := of_Z (Z.of_nat n).

End JS.

(** ** JSON texts

    [JSON.stringify] is the serialization of a value as a document
    ([to_json]) followed by the printing of the document; [JSON.parse] is
    the parsing of a text as a document followed by the construction of the
    value ([of_json]). *)

Module JSON.
Import JS.
Local Open Scope list_scope.

Inductive json : Type :=
| JNull
| JBool (b : bool)
| JNumber (q : Q)
| JString (s : string)
| JArray (items : list json)
| JObject (members : list (string * json)).

(** The document [JSON.stringify] writes for a value; [None] when it
    returns undefined instead of a text.  A number that is not finite is
    written as null; an undefined array element is written as null, an
    undefined property is left out and so are the named properties of an
    array. *)
Fixpoint to_json (v : jsval) : option json :=
  match v with
  | VUndefined => None
  | VNull => Some JNull
  | VBool b => Some (JBool b)
  | VNum (Fin q) => Some (JNumber q)
  | VNum _ => Some JNull
  | VStr s => Some (JString s)
  | VArr items _ =>
      Some (JArray
              (map (fun x => match to_json x with
                             | Some j => j
                             | None => JNull
                             end) items))
  | VObj props =>
      Some (JObject
              ((fix members (ps : list (string * jsval)) :=
                  match ps with
                  | [] => []
                  | (k, x) :: rest =>
                      match to_json x with
                      | Some j => (k, j) :: members rest
                      | None => members rest
                      end
                  end) props))
  end.

(** The value [JSON.parse] builds for a document; a repeated member name
    keeps its last value. *)
Fixpoint of_json (j : json) : jsval :=
  match j with
  | JNull => VNull
  | JBool b => VBool b
  | JNumber q => VNum (Fin q)
  | JString s => VStr s
  | JArray items => VArr (map of_json items) []
  | JObject members =>
      VObj ((fix props (ms : list (string * json)) (acc : object) :=
               match ms with
               | [] => acc
               | (k, x) :: rest => props rest (set_prop k (of_json x) acc)
               end) members [])
  end.

(** The lexical tokens of a text.  A string literal and a number literal
    are one token each, carrying the string and the number they denote:
    escape sequences and the digits of a number are not modelled.  White
    space is a line break followed by an indentation, or a single space;
    [Word] is any other bare word, such as [undefined]. *)
Inductive token : Type :=
| LBrace | RBrace | LBracket | RBracket | Colon | Comma
| Newline (indent : nat)
| Space
| Str (s : string)
| Num (q : Q)
| TTrue | TFalse | TNull
| Word (s : string).

(** A string as [JSON.parse] reads it; the empty string is the empty
    list. *)
Definition text := list token.

(** The line break before an item: none when the gap is empty. *)
Definition newline (gap indent : nat) : text :=
  if Nat.eqb gap 0 then [] else [Newline indent].

(** The colon after a member name, followed by a space unless the gap is
    empty. *)
Definition colon (gap : nat) : text :=
  if Nat.eqb gap 0 then [Colon] else [Colon; Space].

(** The elements of an array after the first, and the closing bracket. *)
Definition print_elements (gap indent : nat) (pr : json -> text)
  : list json -> text :=
  fix rest (xs : list json) : text :=
    match xs with
    | [] => newline gap indent ++ [RBracket]
    | y :: ys => Comma :: newline gap (indent + gap) ++ pr y ++ rest ys
    end.

(** The members of an object after the first, and the closing brace. *)
Definition print_members (gap indent : nat) (pr : json -> text)
  : list (string * json) -> text :=
  fix rest (ms : list (string * json)) : text :=
    match ms with
    | [] => newline gap indent ++ [RBrace]
    | (k, y) :: ms' =>
        Comma :: newline gap (indent + gap) ++ Str k :: colon gap ++
        pr y ++ rest ms'
    end.

(** The text of a document, with [gap] spaces of indentation per level
    (none, and no line break, for the gap 0), starting at [indent]. *)
Fixpoint print (gap indent : nat) (j : json) : text :=
  match j with
  | JNull => [TNull]
  | JBool true => [TTrue]
  | JBool false => [TFalse]
  | JNumber q => [Num q]
  | JString s => [Str s]
  | JArray [] => [LBracket; RBracket]
  | JArray (x :: xs) =>
      LBracket :: newline gap (indent + gap) ++ print gap (indent + gap) x ++
      print_elements gap indent (print gap (indent + gap)) xs
  | JObject [] => [LBrace; RBrace]
  | JObject ((k, x) :: ms) =>
      LBrace :: newline gap (indent + gap) ++ Str k :: colon gap ++
      print gap (indent + gap) x ++
      print_members gap indent (print gap (indent + gap)) ms
  end.

(** The text after its leading white space. *)
Fixpoint skip (ts : text) : text :=
  match ts with
  | Newline _ :: rest => skip rest
  | Space :: rest => skip rest
  | _ => ts
  end.

(** A value at the head of a text, and the text that follows it; the
    elements of an array after its opening bracket; the members of an
    object after its opening brace.  [fuel] bounds the depth of the
    calls. *)
Fixpoint parse_value (fuel : nat) (ts : text) : option (json * text) :=
  match fuel with
  | O => None
  | S fuel' =>
      match skip ts with
      | TNull :: rest => Some (JNull, rest)
      | TTrue :: rest => Some (JBool true, rest)
      | TFalse :: rest => Some (JBool false, rest)
      | Num q :: rest => Some (JNumber q, rest)
      | Str s :: rest => Some (JString s, rest)
      | LBracket :: rest =>
          match skip rest with
          | RBracket :: rest' => Some (JArray [], rest')
          | _ =>
              match parse_elements fuel' rest with
              | Some (xs, rest') => Some (JArray xs, rest')
              | None => None
              end
          end
      | LBrace :: rest =>
          match skip rest with
          | RBrace :: rest' => Some (JObject [], rest')
          | _ =>
              match parse_members fuel' rest with
              | Some (ms, rest') => Some (JObject ms, rest')
              | None => None
              end
          end
      | _ => None
      end
  end
with parse_elements (fuel : nat) (ts : text) : option (list json * text) :=
  match fuel with
  | O => None
  | S fuel' =>
      match parse_value fuel' ts with
      | Some (x, rest) =>
          match skip rest with
          | Comma :: rest' =>
              match parse_elements fuel' rest' with
              | Some (xs, rest'') => Some (x :: xs, rest'')
              | None => None
              end
          | RBracket :: rest' => Some ([x], rest')
          | _ => None
          end
      | None => None
      end
  end
with parse_members (fuel : nat) (ts : text)
  : option (list (string * json) * text) :=
  match fuel with
  | O => None
  | S fuel' =>
      match skip ts with
      | Str k :: rest =>
          match skip rest with
          | Colon :: rest1 =>
              match parse_value fuel' rest1 with
              | Some (x, rest2) =>
                  match skip rest2 with
                  | Comma :: rest3 =>
                      match parse_members fuel' rest3 with
                      | Some (ms, rest4) => Some ((k, x) :: ms, rest4)
                      | None => None
                      end
                  | RBrace :: rest3 => Some ([(k, x)], rest3)
                  | _ => None
                  end
              | None => None
              end
          | _ => None
          end
      | _ => None
      end
  end.

(** The document a text denotes: one value and nothing but white space
    after it.  The length of the text is fuel enough (see
    [parse_complete]). *)
Definition parse (ts : text) : option json :=
  match parse_value (S (List.length ts)) ts with
  | Some (j, rest) => match skip rest with [] => Some j | _ => None end
  | None => None
  end.

(** [JSON.stringify(v, null, gap)], and [JSON.stringify(v)] for the gap
    0. *)
Definition JSON_stringify (gap : nat) (v : jsval) : option text :=
  option_map (print gap 0) (to_json v).

(** [JSON.parse(t)]; [None] when it throws a SyntaxError. *)
Definition JSON_parse (t : text) : option jsval :=
  option_map of_json (parse t).

(** The string [JSON.stringify] leaves where a string is expected: its
    text, or "undefined". *)
Definition text_of (o : option text) : text :=
  match o with Some t => t | None => [Word "undefined"] end.

End JSON.

(** ** js/websocket.js: the connection manager *)

Module WebSocketManager.
Import JS JSON.

(** [typeof data.k === t] *)
Definition field_has_type (data : jsval) (k t : string) : bool :=
  match get data k with
  | Some v => String.eqb (typeof v) t
  | None => false
  end.

(** [v === null] *)
Definition is_null (v : jsval) : bool :=
  match v with VNull => true | _ => false end.

(** [validateData(data)] *)
Definition validateData (data : jsval) : bool :=
  String.eqb (typeof data) "object" &&
  negb (is_null data) &&
  field_has_type data "heartRate" "number" &&
  field_has_type data "spO2" "number" &&
  field_has_type data "squatCount" "number" &&
  field_has_type data "postureStatus" "string" &&
  field_has_type data "fingerDetected" "boolean" &&
  field_has_type data "fallDetected" "boolean".

(** [WebSocket.readyState] *)
Inductive readyState : Type := CONNECTING | OPEN | CLOSING | CLOSED.

(** The fields of [this]. [ws] and [reconnectTimeout] hold a socket and a
    timer handle, or null; [maxReconnectAttempts] is [None] for Infinity. *)
Record manager : Type := mkManager {
  url : string;
  ws : option nat;
  reconnectAttempts : Z;
  maxReconnectAttempts : option Z;
  reconnectDelay : Z;
  maxReconnectDelay : Z;
  reconnectTimeout : option nat;
  isManualDisconnect : bool;
  lastMessageTime : option Z;
  startTime : option Z;
  messageCount : Z;
  lastStateMessage : option string
}.

(** What the browser holds for the page: the sockets created so far (a
    socket handle is its index), the pending timers with their delays, every
    [setTimeout] call made so far in order, the connection-state
    notifications and the payloads handed to the message callback. *)
Record browser : Type := mkBrowser {
  sockets : list readyState;
  timers : list (nat * Z);
  next_timer : nat;
  scheduled : list (nat * Z);
  notified : list (string * option string);
  delivered : list jsval;
  constructible : string -> bool
}.

Record state : Type := mkState { this : manager; env : browser }.

(** [new WebSocketManager(url)] in a page whose [WebSocket] constructor
    accepts the URLs of [ok]. *)
Definition create (u : string) (ok : string -> bool) : state :=
  {| this := {| url := u; ws := None; reconnectAttempts := 0;
                maxReconnectAttempts := None; reconnectDelay := 1000;
                maxReconnectDelay := 30000; reconnectTimeout := None;
                isManualDisconnect := false; lastMessageTime := None;
                startTime := None; messageCount := 0;
                lastStateMessage := None |};
     env := {| sockets := []; timers := []; next_timer := 1%nat;
               scheduled := []; notified := []; delivered := [];
               constructible := ok |} |}.

Definition with_this (f : manager -> manager) (s : state) : state :=
  {| this := f (this s); env := env s |}.

Definition with_env (f : browser -> browser) (s : state) : state :=
  {| this := this s; env := f (env s) |}.

Definition set_url u (m : manager) :=
  mkManager u (ws m) (reconnectAttempts m) (maxReconnectAttempts m)
    (reconnectDelay m) (maxReconnectDelay m) (reconnectTimeout m)
    (isManualDisconnect m) (lastMessageTime m) (startTime m) (messageCount m)
    (lastStateMessage m).
Definition set_ws w (m : manager) :=
  mkManager (url m) w (reconnectAttempts m) (maxReconnectAttempts m)
    (reconnectDelay m) (maxReconnectDelay m) (reconnectTimeout m)
    (isManualDisconnect m) (lastMessageTime m) (startTime m) (messageCount m)
    (lastStateMessage m).
Definition set_reconnectAttempts n (m : manager) :=
  mkManager (url m) (ws m) n (maxReconnectAttempts m)
    (reconnectDelay m) (maxReconnectDelay m) (reconnectTimeout m)
    (isManualDisconnect m) (lastMessageTime m) (startTime m) (messageCount m)
    (lastStateMessage m).
Definition set_reconnectDelay d (m : manager) :=
  mkManager (url m) (ws m) (reconnectAttempts m) (maxReconnectAttempts m)
    d (maxReconnectDelay m) (reconnectTimeout m)
    (isManualDisconnect m) (lastMessageTime m) (startTime m) (messageCount m)
    (lastStateMessage m).
Definition set_reconnectTimeout t (m : manager) :=
  mkManager (url m) (ws m) (reconnectAttempts m) (maxReconnectAttempts m)
    (reconnectDelay m) (maxReconnectDelay m) t
    (isManualDisconnect m) (lastMessageTime m) (startTime m) (messageCount m)
    (lastStateMessage m).
Definition set_isManualDisconnect b (m : manager) :=
  mkManager (url m) (ws m) (reconnectAttempts m) (maxReconnectAttempts m)
    (reconnectDelay m) (maxReconnectDelay m) (reconnectTimeout m)
    b (lastMessageTime m) (startTime m) (messageCount m)
    (lastStateMessage m).
Definition set_lastMessageTime t (m : manager) :=
  mkManager (url m) (ws m) (reconnectAttempts m) (maxReconnectAttempts m)
    (reconnectDelay m) (maxReconnectDelay m) (reconnectTimeout m)
    (isManualDisconnect m) t (startTime m) (messageCount m)
    (lastStateMessage m).
Definition set_startTime t (m : manager) :=
  mkManager (url m) (ws m) (reconnectAttempts m) (maxReconnectAttempts m)
    (reconnectDelay m) (maxReconnectDelay m) (reconnectTimeout m)
    (isManualDisconnect m) (lastMessageTime m) t (messageCount m)
    (lastStateMessage m).
Definition set_messageCount n (m : manager) :=
  mkManager (url m) (ws m) (reconnectAttempts m) (maxReconnectAttempts m)
    (reconnectDelay m) (maxReconnectDelay m) (reconnectTimeout m)
    (isManualDisconnect m) (lastMessageTime m) (startTime m) n
    (lastStateMessage m).
Definition set_lastStateMessage msg (m : manager) :=
  mkManager (url m) (ws m) (reconnectAttempts m) (maxReconnectAttempts m)
    (reconnectDelay m) (maxReconnectDelay m) (reconnectTimeout m)
    (isManualDisconnect m) (lastMessageTime m) (startTime m) (messageCount m)
    msg.

Definition set_sockets l (b : browser) :=
  mkBrowser l (timers b) (next_timer b) (scheduled b) (notified b)
    (delivered b) (constructible b).
Definition set_timers l (b : browser) :=
  mkBrowser (sockets b) l (next_timer b) (scheduled b) (notified b)
    (delivered b) (constructible b).
Definition notify st msg (b : browser) :=
  mkBrowser (sockets b) (timers b) (next_timer b) (scheduled b)
    (notified b ++ [(st, msg)]) (delivered b) (constructible b).
Definition deliver v (b : browser) :=
  mkBrowser (sockets b) (timers b) (next_timer b) (scheduled b) (notified b)
    (delivered b ++ [v]) (constructible b).

(** [setTimeout(callback, delay)]: a fresh handle, pending from now on. *)
Definition setTimeout (delay : Z) (b : browser) : nat * browser :=
  let t := next_timer b in
  (t, mkBrowser (sockets b) (timers b ++ [(t, delay)]) (S t)
        (scheduled b ++ [(t, delay)]) (notified b) (delivered b)
        (constructible b)).

(** [clearTimeout(t)] *)
Definition clearTimeout (t : nat) (b : browser) : browser :=
  set_timers (filter (fun p => negb (Nat.eqb (fst p) t)) (timers b)) b.

Definition pending (t : nat) (b : browser) : bool :=
  existsb (fun p => Nat.eqb (fst p) t) (timers b).

Fixpoint replace_nth {A} (n : nat) (x : A) (l : list A) : list A :=
  match l, n with
  | [], _ => []
  | _ :: rest, O => x :: rest
  | y :: rest, S n' => y :: replace_nth n' x rest
  end.

Definition readyState_of (sock : nat) (b : browser) : option readyState :=
  nth_error (sockets b) sock.

Definition set_readyState (sock : nat) (r : readyState) (b : browser) :=
  set_sockets (replace_nth sock r (sockets b)) b.

(** [updateConnectionState(state, message)] *)
Definition updateConnectionState (st : string) (msg : option string)
  (s : state) : state :=
  with_env (notify st msg) (with_this (set_lastStateMessage msg) s).

(** [scheduleReconnect()] *)
Definition scheduleReconnect (s : state) : state :=
  if isManualDisconnect (this s) then s
  else
    let s := with_this
               (set_reconnectAttempts (reconnectAttempts (this s) + 1)) s in
    let delay := Z.min
                   (reconnectDelay (this s)
                    * 2 ^ (reconnectAttempts (this s) - 1))
                   (maxReconnectDelay (this s)) in
    let s := updateConnectionState "connecting" None s in
    let (t, b) := setTimeout delay (env s) in
    {| this := set_reconnectTimeout (Some t) (this s); env := b |}.

(** The guard of [connect]: a socket that is connecting or open. *)
Definition busy (s : state) : bool :=
  match ws (this s) with
  | Some sock =>
      match readyState_of sock (env s) with
      | Some CONNECTING | Some OPEN => true
      | _ => false
      end
  | None => false
  end.

(** [connect(url)]; [None] is the default argument null.  The message of
    the catch block carries the text of the browser's exception, which is
    not modelled. *)
Definition connect (u : option string) (s : state) : state :=
  let s := match u with
           | Some u' => if String.eqb u' "" then s
                        else with_this (set_url u') s
           | None => s
           end in
  if busy s then s
  else
    let s := with_this (set_isManualDisconnect false) s in
    let s := updateConnectionState "connecting" None s in
    if constructible (env s) (url (this s)) then
      let sock := List.length (sockets (env s)) in
      let s := with_env (set_sockets (sockets (env s) ++ [CONNECTING])) s in
      with_this (set_ws (Some sock)) s
    else
      let s := updateConnectionState "error" (Some "Connection failed") s in
      scheduleReconnect s.

(** [ws.close()] on a socket. *)
Definition socket_close (sock : nat) (b : browser) : browser :=
  match readyState_of sock b with
  | Some CONNECTING | Some OPEN => set_readyState sock CLOSING b
  | _ => b
  end.

(** [disconnect()] *)
Definition disconnect (s : state) : state :=
  let s := with_this (set_isManualDisconnect true) s in
  let s := match reconnectTimeout (this s) with
           | Some t =>
               if Nat.eqb t 0 then s
               else with_this (set_reconnectTimeout None)
                      (with_env (clearTimeout t) s)
           | None => s
           end in
  let s := match ws (this s) with
           | Some sock =>
               with_this (set_ws None) (with_env (socket_close sock) s)
           | None => s
           end in
  updateConnectionState "disconnected" None s.

(** [ws.onopen] *)
Definition onopen (now : Z) (s : state) : state :=
  let s := with_this (set_reconnectAttempts 0) s in
  let s := with_this (set_reconnectDelay 1000) s in
  let s := with_this (set_startTime (Some now)) s in
  let s := with_this (set_messageCount 0) s in
  updateConnectionState "connected" None s.

(** [ws.onmessage] for the frame [data]; a frame that [JSON.parse] refuses
    is reported and dropped by the catch block. *)
Definition onmessage (now : Z) (data : text) (s : state) : state :=
  let s := with_this (set_lastMessageTime (Some now)) s in
  let s := with_this (set_messageCount (messageCount (this s) + 1)) s in
  match JSON_parse data with
  | Some v => if validateData v then with_env (deliver v) s else s
  | None => s
  end.

(** [ws.onerror] *)
Definition onerror (s : state) : state :=
  updateConnectionState "error"
    (Some "Connection failed. Check if ESP32 is running and reachable.") s.

Definition closeReason (code : Z) : string :=
  if code =? 1000 then "Normal closure"
  else if code =? 1001 then "Going away"
  else if code =? 1002 then "Protocol error"
  else if code =? 1003 then "Unsupported data"
  else if code =? 1006 then "Abnormal closure (connection lost)"
  else if code =? 1011 then "Server error"
  else if code =? 1015 then "TLS handshake failed"
  else "Unknown".

Definition below_max (n : Z) (m : option Z) : bool :=
  match m with Some k => n <? k | None => true end.

(** [ws.onclose] *)
Definition onclose (code : Z) (s : state) : state :=
  let s := updateConnectionState "disconnected" (Some (closeReason code)) s in
  if negb (isManualDisconnect (this s)) &&
     below_max (reconnectAttempts (this s)) (maxReconnectAttempts (this s))
  then scheduleReconnect s
  else s.

(** What can happen to the manager: calls from the dashboard, socket events
    and the expiry of a reconnect timer. *)
Inductive event : Type :=
| Connect (u : option string)
| Disconnect
| Open (sock : nat) (now : Z)
| Message (sock : nat) (now : Z) (data : text)
| Error (sock : nat)
| Close (sock : nat) (code : Z)
| Timeout (t : nat).

(** One event; [None] when the browser cannot produce it in this state (no
    such socket, a socket past that event, a timer that is not pending). *)
Definition step (s : state) (e : event) : option state :=
  match e with
  | Connect u => Some (connect u s)
  | Disconnect => Some (disconnect s)
  | Open sock now =>
      match readyState_of sock (env s) with
      | Some CONNECTING =>
          Some (onopen now (with_env (set_readyState sock OPEN) s))
      | _ => None
      end
  | Message sock now data =>
      match readyState_of sock (env s) with
      | Some OPEN => Some (onmessage now data s)
      | _ => None
      end
  | Error sock =>
      match readyState_of sock (env s) with
      | Some CLOSED | None => None
      | Some _ => Some (onerror s)
      end
  | Close sock code =>
      match readyState_of sock (env s) with
      | Some CLOSED | None => None
      | Some _ => Some (onclose code (with_env (set_readyState sock CLOSED) s))
      end
  | Timeout t =>
      if pending t (env s)
      then Some (connect None (with_env (clearTimeout t) s))
      else None
  end.

Fixpoint run (s : state) (es : list event) : option state :=
  match es with
  | [] => Some s
  | e :: rest =>
      match step s e with
      | Some s' => run s' rest
      | None => None
      end
  end.

(** The delays of the reconnect timers set so far, oldest first. *)
Definition delays (s : state) : list Z := map snd (scheduled (env s)).

End WebSocketManager.

(** ** js/storage.js: the session store *)

Module StorageManager.
Import JS JSON.

(** A payload that passed the validator: the six fields of the wire format
    with their types.  Fields beyond these six are not tracked. *)
Record payload : Type := mkPayload {
  heartRate : number;
  spO2 : number;
  squatCount : number;
  postureStatus : string;
  fingerDetected : bool;
  fallDetected : bool
}.

(** [{ timestamp, date, ...data }] *)
Record reading : Type := mkReading {
  timestamp : Z;
  date : string;
  sample : payload
}.

(** [sessionData.metadata]; a timestamp is null ([None]) until it is set,
    and [lastUpdate] is undefined ([None]) until the first reading. *)
Record metadata : Type := mkMetadata {
  sessionStart : option Z;
  sessionEnd : option Z;
  totalReadings : nat;
  exportTimestamp : option Z;
  lastUpdate : option Z
}.

Record session : Type := mkSession {
  data : list reading;
  meta : metadata
}.

(** What [localStorage.setItem] does with a write. *)
Inductive outcome : Type :=
| Stored
| QuotaExceededError
| OtherError.

(** What the page sees besides the manager: the item kept under the storage
    key, the number of [setItem] calls made so far and what the storage
    answers to each, and the alerts, console errors and downloads
    produced. *)
Record browser : Type := mkBrowser {
  localStorage : option text;
  writes : nat;
  setItem_result : nat -> outcome;
  alerts : list string;
  errors : list string;
  downloads : list (Z * text)
}.

Record state : Type := mkState {
  maxStorageItems : nat;
  sessionData : session;
  sessionStartTime : option Z;
  env : browser
}.

Definition set_session (sd : session) (s : state) : state :=
  mkState (maxStorageItems s) sd (sessionStartTime s) (env s).
Definition set_sessionStartTime (t : option Z) (s : state) : state :=
  mkState (maxStorageItems s) (sessionData s) t (env s).
Definition set_env (b : browser) (s : state) : state :=
  mkState (maxStorageItems s) (sessionData s) (sessionStartTime s) b.

Definition set_data (l : list reading) (sd : session) : session :=
  mkSession l (meta sd).
Definition set_meta (m : metadata) (sd : session) : session :=
  mkSession (data sd) m.

Definition set_sessionStart t (m : metadata) :=
  mkMetadata t (sessionEnd m) (totalReadings m) (exportTimestamp m)
    (lastUpdate m).
Definition set_totalReadings n (m : metadata) :=
  mkMetadata (sessionStart m) (sessionEnd m) n (exportTimestamp m)
    (lastUpdate m).
Definition set_exportTimestamp t (m : metadata) :=
  mkMetadata (sessionStart m) (sessionEnd m) (totalReadings m) t
    (lastUpdate m).
Definition set_lastUpdate t (m : metadata) :=
  mkMetadata (sessionStart m) (sessionEnd m) (totalReadings m)
    (exportTimestamp m) t.

Definition alert (msg : string) (b : browser) : browser :=
  mkBrowser (localStorage b) (writes b) (setItem_result b)
    (alerts b ++ [msg]) (errors b) (downloads b).
Definition console_error (msg : string) (b : browser) : browser :=
  mkBrowser (localStorage b) (writes b) (setItem_result b)
    (alerts b) (errors b ++ [msg]) (downloads b).
Definition download (stamp : Z) (t : text) (b : browser) : browser :=
  mkBrowser (localStorage b) (writes b) (setItem_result b)
    (alerts b) (errors b) (downloads b ++ [(stamp, t)]).

(** [localStorage.setItem(storageKey, t)]: the answer of the storage to
    this write, and the storage afterwards. *)
Definition setItem (t : text) (b : browser) : outcome * browser :=
  let r := setItem_result b (writes b) in
  (r, mkBrowser (match r with Stored => Some t | _ => localStorage b end)
        (S (writes b)) (setItem_result b) (alerts b) (errors b)
        (downloads b)).

(** *** The session as a JavaScript object *)

(** A timestamp, or null. *)
Definition js_time (t : option Z) : jsval :=
  match t with Some z => VNum (of_Z z) | None => VNull end.

(** The payload, the reading, the metadata and the session as the objects
    the code holds, in property order. *)
Definition js_of_payload (p : payload) : object :=
  [ ("heartRate", VNum (heartRate p));
    ("spO2", VNum (spO2 p));
    ("squatCount", VNum (squatCount p));
    ("postureStatus", VStr (postureStatus p));
    ("fingerDetected", VBool (fingerDetected p));
    ("fallDetected", VBool (fallDetected p)) ].

Definition js_of_reading (r : reading) : jsval :=
  VObj (spread [ ("timestamp", VNum (of_Z (timestamp r)));
                 ("date", VStr (date r)) ]
               (js_of_payload (sample r))).

Definition js_of_metadata (m : metadata) : jsval :=
  VObj ([ ("sessionStart", js_time (sessionStart m));
          ("sessionEnd", js_time (sessionEnd m));
          ("totalReadings", VNum (of_nat (totalReadings m)));
          ("exportTimestamp", js_time (exportTimestamp m)) ]
        ++ match lastUpdate m with
           | Some t => [ ("lastUpdate", VNum (of_Z t)) ]
           | None => []
           end)%list.

Definition js_of_session (sd : session) : object :=
  [ ("data", VArr (map js_of_reading (data sd)) []);
    ("metadata", js_of_metadata (meta sd)) ].

(** The payload a decoded message carries, when it has the six fields with
    their types. *)
Definition payload_of (v : jsval) : option payload :=
  match v with
  | VObj ps =>
      match lookup "heartRate" ps, lookup "spO2" ps, lookup "squatCount" ps,
            lookup "postureStatus" ps, lookup "fingerDetected" ps,
            lookup "fallDetected" ps with
      | Some (VNum h), Some (VNum o), Some (VNum q),
        Some (VStr p), Some (VBool f), Some (VBool d) =>
          Some (mkPayload h o q p f d)
      | _, _, _, _, _, _ => None
      end
  | _ => None
  end.

(** *** The methods *)

(** The object literal [loadSessionData] returns when nothing usable is
    stored. *)
Definition default_session : jsval :=
  VObj [ ("data", VArr [] []);
         ("metadata",
          VObj [ ("sessionStart", VNull);
                 ("sessionEnd", VNull);
                 ("totalReadings", VNum (of_Z 0));
                 ("exportTimestamp", VNull) ]) ].

(** [loadSessionData()], from what [localStorage.getItem(storageKey)]
    returns ([None] for null).  Every exception raised inside the try block
    (by [JSON.parse], by reading [parsed.data] of null, by assigning
    [parsed.data] on a primitive) is caught and leads to the default
    session. *)
Definition loadSessionData (stored : option text) : jsval :=
  match stored with
  | Some [] => default_session
  | Some t =>
      match JSON_parse t with
      | Some parsed =>
          match get parsed "data" with
          | Some d =>
              if negb (truthy d) then
                match assign parsed "data" (VArr [] []) with
                | Some parsed' => parsed'
                | None => default_session
                end
              else parsed
          | None => default_session
          end
      | None => default_session
      end
  | None => default_session
  end.

(** The session of the default object. *)
Definition empty_session : session :=
  mkSession [] (mkMetadata None None 0 None None).

(** [new StorageManager()] in a page whose storage holds no session. *)
Definition create (answers : nat -> outcome) : state :=
  mkState 1000 empty_session None
    (mkBrowser None 0 answers [] [] []).

(** [keepCount] of [clearOldData]. *)
Definition keepCount : nat := 500.

(** [persist()] and [clearOldData()], which call each other; [fuel] bounds
    the depth of the calls. *)
Fixpoint persist_fuel (fuel : nat) (s : state) : option state :=
  match fuel with
  | O => None
  | S fuel' =>
      let doc :=
        text_of (JSON_stringify 0 (VObj (js_of_session (sessionData s)))) in
      match setItem doc (env s) with
      | (Stored, b) => Some (set_env b s)
      | (QuotaExceededError, b) =>
          let b := console_error "Error saving to localStorage:" b in
          let b := alert "Storage quota exceeded. Clearing old data..." b in
          clearOldData_fuel fuel' (set_env b s)
      | (OtherError, b) =>
          Some (set_env (console_error "Error saving to localStorage:" b) s)
      end
  end
with clearOldData_fuel (fuel : nat) (s : state) : option state :=
  match fuel with
  | O => None
  | S fuel' =>
      let l := data (sessionData s) in
      if (keepCount <? List.length l)%nat then
        let kept := skipn (List.length l - keepCount) l in
        let sd := set_data kept (sessionData s) in
        let sd := set_meta (set_totalReadings (List.length kept) (meta sd)) sd in
        persist_fuel fuel' (set_session sd s)
      else Some s
  end.

(** [persist()]: four nested calls are the most the two methods make (see
    [persist_fuel_enough]). *)
Definition persist (s : state) : state :=
  match persist_fuel 4 s with Some s' => s' | None => s end.

(** [clearOldData()] *)
Definition clearOldData (s : state) : state :=
  match clearOldData_fuel 4 s with Some s' => s' | None => s end.

(** [saveReading(data)] at the instant [now] returned by [Date.now()]. *)
Definition saveReading (now : Z) (d : payload) (s : state) : state :=
  let r := mkReading now (toISOString now) d in
  let l := (data (sessionData s) ++ [r])%list in
  let l := if (maxStorageItems s <? List.length l)%nat then tl l else l in
  let s := set_session (set_data l (sessionData s)) s in
  let unset := match sessionStart (meta (sessionData s)) with
               | None => true
               | Some t => t =? 0
               end in
  let s := if unset then
             set_sessionStartTime (Some now)
               (set_session
                  (set_meta (set_sessionStart (Some now) (meta (sessionData s)))
                     (sessionData s)) s)
           else s in
  let m := set_totalReadings (List.length (data (sessionData s)))
             (meta (sessionData s)) in
  let m := set_lastUpdate (Some now) m in
  persist (set_session (set_meta m (sessionData s)) s).

(** [{ ...this.sessionData, exportTimestamp, exportDate }] *)
Definition exportData (sd : session) (t_export t_date : Z) : object :=
  spread (js_of_session sd)
    [ ("exportTimestamp", VNum (of_Z t_export));
      ("exportDate", VStr (toISOString t_date)) ].

(** [exportJSON()]; the four instants are those of the two [Date.now()]
    calls and the [new Date()] before the download and of the [Date.now()]
    after it.  Returns the downloaded text as well. *)
Definition exportJSON (t_export t_date t_file t_meta : Z) (s : state)
  : text * state :=
  let jsonString :=
    text_of (JSON_stringify 2
               (VObj (exportData (sessionData s) t_export t_date))) in
  let s := set_env (download t_file jsonString (env s)) s in
  let m := set_exportTimestamp (Some t_meta) (meta (sessionData s)) in
  (jsonString, persist (set_session (set_meta m (sessionData s)) s)).

(** [clear()]; [confirmed] is the answer to the confirmation dialog. *)
Definition clear (confirmed : bool) (s : state) : bool * state :=
  if confirmed then
    (true, persist (set_sessionStartTime None (set_session empty_session s)))
  else (false, s).

(** [getStats()]: the object it returns, in property order. *)
Definition getStats (s : state) : object :=
  let l := data (sessionData s) in
  if (List.length l =? 0)%nat then
    [ ("totalReadings", VNum (of_Z 0));
      ("sessionStart", VNull);
      ("avgHeartRate", VNull);
      ("avgSpO2", VNull);
      ("maxSquats", VNum (of_Z 0)) ]
  else
    let heartRates :=
      filter (fun v => negb (isNaN v)) (map (fun r => heartRate (sample r)) l) in
    let spO2Values :=
      filter (fun v => negb (isNaN v)) (map (fun r => spO2 (sample r)) l) in
    let squatCounts := map (fun r => squatCount (sample r)) l in
    let average (vs : list number) :=
      Math_round (div (fold_left add vs (of_Z 0)) (of_nat (List.length vs))) in
    [ ("totalReadings", VNum (of_nat (List.length l)));
      ("sessionStart", js_time (sessionStart (meta (sessionData s))));
      ("avgHeartRate",
       if (0 <? List.length heartRates)%nat
       then VNum (average heartRates) else VNull);
      ("avgSpO2",
       if (0 <? List.length spO2Values)%nat
       then VNum (average spO2Values) else VNull);
      ("maxSquats",
       if (0 <? List.length squatCounts)%nat
       then VNum (Math_max squatCounts) else VNum (of_Z 0));
      ("minHeartRate",
       if (0 <? List.length heartRates)%nat
       then VNum (Math_min heartRates) else VNull);
      ("maxHeartRate",
       if (0 <? List.length heartRates)%nat
       then VNum (Math_max heartRates) else VNull) ].

(** [stats.k] on the object [getStats] returns. *)
Definition stat (k : string) (o : object) : jsval := or_undefined (lookup k o).

End StorageManager.

(** ** js/dashboard.js and js/charts.js: the heart-rate classification *)

Module DashboardController.
Import JS.

(** The part of the page and of the controller [updateHeartRate] writes:
    the text of the value, the status label, the class of the metric, the
    trend arrow with its class, and [this.lastHeartRate]. *)
Record view : Type := mkView {
  valueText : jsval;
  hrStatus : string;
  heartRateClass : string;
  hrTrend : string;
  hrTrendClass : string;
  lastHeartRate : option number
}.

(** A display before any reading (the texts of the page's markup are not
    part of the model). *)
Definition initial : view :=
  mkView (VStr "--") "" "metric-value" "" "trend-arrow" None.

Definition show (text : jsval) (status className : string) (d : view) :=
  mkView text status className (hrTrend d) (hrTrendClass d) (lastHeartRate d).
Definition set_trend (arrow className : string) (d : view) :=
  mkView (valueText d) (hrStatus d) (heartRateClass d) arrow className
    (lastHeartRate d).
Definition set_lastHeartRate (v : option number) (d : view) :=
  mkView (valueText d) (hrStatus d) (heartRateClass d) (hrTrend d)
    (hrTrendClass d) v.

(** [updateHeartRate(value)]; [None] is null or undefined. *)
Definition updateHeartRate (value : option number) (d : view) : view :=
  match value with
  | None => show (VStr "--") "No data" "metric-value" d
  | Some v =>
      if isNaN v then show (VStr "--") "No data" "metric-value" d
      else
        let (status, className) :=
          if ge v (of_Z 60) && le v (of_Z 100) then
            ("Normal", "metric-value status-normal")
          else if ge v (of_Z 101) && le v (of_Z 120) then
            ("Elevated", "metric-value status-warning")
          else
            ("High", "metric-value status-danger") in
        let d :=
          match lastHeartRate d with
          | Some last =>
              if gt v (add last (of_Z 2)) then
                set_trend "↑" "trend-arrow trend-up" d
              else if lt v (sub last (of_Z 2)) then
                set_trend "↓" "trend-arrow trend-down" d
              else set_trend "→" "trend-arrow trend-stable" d
          | None => d
          end in
        set_lastHeartRate (Some v)
          (show (VNum (Math_round v)) status className d)
  end.

End DashboardController.

Module ChartManager.
Import JS.

(** [getHeartRateColor(value)]: border and background colours. *)
Definition getHeartRateColor (value : number) : string * string :=
  if ge value (of_Z 60) && le value (of_Z 100) then
    ("#10b981", "rgba(16, 185, 129, 0.1)")
  else if ge value (of_Z 101) && le value (of_Z 120) then
    ("#f59e0b", "rgba(245, 158, 11, 0.1)")
  else
    ("#ef4444", "rgba(239, 68, 68, 0.1)").

End ChartManager.

(** * The vocabulary of the properties

    The predicates the statements below are written with, and the scenarios
    they are evaluated on. *)

(** ** JSON texts: sizes and induction *)

Module JSONSpec.
Import JS JSON.
Local Open Scope nat_scope.

(** The fuel that parsing a printed document takes at most. *)
Fixpoint size (j : json) : nat :=
  match j with
  | JArray xs => S (fold_right (fun x n => S (size x + n)) 0 xs)
  | JObject ms => S (fold_right (fun m n => S (size (snd m) + n)) 0 ms)
  | _ => 1
  end.

(** The same for the elements of an array and the members of an object. *)
Definition elements_size (xs : list json) : nat :=
  fold_right (fun x n => S (size x + n)) 0 xs.

Definition members_size (ms : list (string * json)) : nat :=
  fold_right (fun m n => S (size (snd m) + n)) 0 ms.

(** Induction on documents, with the hypothesis for every element of an
    array and every member of an object. *)
Section Induction.

Variable P : json -> Prop.
Hypothesis HNull : P JNull.
Hypothesis HBool : forall b, P (JBool b).
Hypothesis HNumber : forall q, P (JNumber q).
Hypothesis HString : forall s, P (JString s).
Hypothesis HArray : forall xs, Forall P xs -> P (JArray xs).
Hypothesis HObject : forall ms, Forall (fun m => P (snd m)) ms -> P (JObject ms).

Fixpoint json_nested_ind (j : json) : P j :=
  match j with
  | JNull => HNull
  | JBool b => HBool b
  | JNumber q => HNumber q
  | JString s => HString s
  | JArray xs =>
      HArray xs
        ((fix all (l : list json) : Forall P l :=
            match l with
            | [] => Forall_nil P
            | x :: l' => Forall_cons x (json_nested_ind x) (all l')
            end) xs)
  | JObject ms =>
      HObject ms
        ((fix all (l : list (string * json)) : Forall (fun m => P (snd m)) l :=
            match l with
            | [] => Forall_nil _
            | m :: l' => Forall_cons m (json_nested_ind (snd m)) (all l')
            end) ms)
  end.

End Induction.

(** A text that starts with the first token of a value. *)
Definition starts_value (ts : text) : Prop :=
  match ts with
  | TNull :: _ | TTrue :: _ | TFalse :: _ | Num _ :: _ | Str _ :: _
  | LBracket :: _ | LBrace :: _ => True
  | _ => False
  end.

End JSONSpec.

(** ** Numbers: bands, order and means *)

Module NumberSpec.
Import JS.

(** A finite value between two integer bounds, both included. *)
Definition between (lo hi : Z) (v : number) : Prop :=
  exists q, v = Fin q /\ (inject_Z lo <= q)%Q /\ (q <= inject_Z hi)%Q.

(** A value under an integer bound: finite and smaller, or minus infinity. *)
Definition below (lo : Z) (v : number) : Prop :=
  v = NegInf \/ exists q, v = Fin q /\ (q < inject_Z lo)%Q.

(** No element of the list is NaN. *)
Definition not_NaN (l : list number) : Prop :=
  Forall (fun x => isNaN x = false) l.

(** The arithmetic mean of a list of rationals. *)
Definition mean (qs : list Q) : Q :=
  (fold_left Qplus qs 0 / inject_Z (Z.of_nat (List.length qs)))%Q.

(** A multiple of [2 ^ e]: a rational with no bit under the one of weight
    [2 ^ e]. *)
Definition on_grid (e : Z) (x : Q) : Prop :=
  exists A : Z, (x == inject_Z A * 2 ^ e)%Q.

(** An integer of at most 32 bits. *)
Definition small (z : Z) : Prop := Z.abs z <= 2 ^ 31.

End NumberSpec.

(** ** The validator: well-typed payloads *)

Module ValidatorSpec.
Import JS JSON WebSocketManager.

(** The six fields with their declared types. *)
Definition well_typed (data : jsval) : Prop :=
  exists h o q p f d,
    get data "heartRate" = Some (VNum h) /\
    get data "spO2" = Some (VNum o) /\
    get data "squatCount" = Some (VNum q) /\
    get data "postureStatus" = Some (VStr p) /\
    get data "fingerDetected" = Some (VBool f) /\
    get data "fallDetected" = Some (VBool d).

End ValidatorSpec.

(** ** The connection manager: scenarios *)

Module ConnectionSpec.
Import JS WebSocketManager.

(** The manager of the dashboard, in a page that accepts every URL. *)
Definition fresh : state := create "ws://10.165.122.115:81" (fun _ => true).

(** A connection attempt that fails: the socket closes abnormally and the
    reconnect timer set by the close handler expires. *)
Definition failed_attempt (i : nat) : list event :=
  [Close i 1006; Timeout (S i)].

(** The dashboard connects to [u] and [n] attempts fail in a row. *)
Definition failing_run (u : string) (n : nat) : list event :=
  Connect (Some u) :: List.concat (map failed_attempt (seq 0 n)).

(** The delay of the reconnect timer set after [i] earlier attempts. *)
Definition backoff (i : nat) : Z := Z.min (1000 * 2 ^ Z.of_nat i) 30000.

(** The state after [n] failed attempts in a row. *)
Record after_failures (n : nat) (s : state) : Prop := {
  af_ws : ws (this s) = Some n;
  af_attempts : reconnectAttempts (this s) = Z.of_nat n;
  af_delay : reconnectDelay (this s) = 1000;
  af_max : maxReconnectDelay (this s) = 30000;
  af_limit : maxReconnectAttempts (this s) = None;
  af_manual : isManualDisconnect (this s) = false;
  af_sockets : sockets (env s) = (repeat CLOSED n ++ [CONNECTING])%list;
  af_timers : timers (env s) = [];
  af_next : next_timer (env s) = S n;
  af_scheduled : scheduled (env s) = map (fun i => (S i, backoff i)) (seq 0 n);
  af_ok : forall u, constructible (env s) u = true
}.

(** A call of [connect] by the dashboard. *)
Definition is_connect (e : event) : bool :=
  match e with Connect _ => true | _ => false end.

(** The dashboard connects, the attempt fails, it connects again before the
    first reconnect timer expires, that attempt fails as well, and the user
    disconnects. *)
Definition reconnect_then_disconnect : list event :=
  [ Connect (Some "ws://10.165.122.115:81"); Close 0 1006;
    Connect (Some "ws://10.165.122.115:81"); Close 1 1006;
    Disconnect ].

(** The manual flag, the timer handle, the pending timers, the sockets and
    the attempt counter. *)
Definition summary (s : state)
  : bool * option nat * list (nat * Z) * list readyState * Z :=
  (isManualDisconnect (this s), reconnectTimeout (this s), timers (env s),
   sockets (env s), reconnectAttempts (this s)).

End ConnectionSpec.

(** ** The session store: calls, scenarios and aggregates *)

Module StorageSpec.
Import JS JSON StorageManager NumberSpec.

(** The text [persist] hands to the storage. *)
Definition doc_of (s : state) : text :=
  text_of (JSON_stringify 0 (VObj (js_of_session (sessionData s)))).

(** What the catch block of [persist] reports for the answer [r]. *)
Definition report (r : outcome) (b : browser) : browser :=
  match r with
  | Stored => b
  | QuotaExceededError =>
      alert "Storage quota exceeded. Clearing old data..."
        (console_error "Error saving to localStorage:" b)
  | OtherError => console_error "Error saving to localStorage:" b
  end.

(** One write of the session and the report of its failure. *)
Definition write (s : state) : state :=
  set_env (report (fst (setItem (doc_of s) (env s)))
                  (snd (setItem (doc_of s) (env s)))) s.

(** The session cut down to its last [keepCount] readings. *)
Definition truncated (s : state) : state :=
  let kept := skipn (List.length (data (sessionData s)) - keepCount)
                (data (sessionData s)) in
  set_session
    (set_meta (set_totalReadings (List.length kept) (meta (sessionData s)))
       (set_data kept (sessionData s))) s.

(** The answer of the storage to the next write. *)
Definition next_answer (s : state) : outcome :=
  setItem_result (env s) (writes (env s)).

(** A call of a method that changes the session. *)
Inductive op : Type :=
| Save (now : Z) (d : payload)
| Export (t_export t_date t_file t_meta : Z)
| Clear (confirmed : bool).

(** The call carried out on a store. *)
Definition apply_op (s : state) (o : op) : state :=
  match o with
  | Save now d => saveReading now d s
  | Export t1 t2 t3 t4 => snd (exportJSON t1 t2 t3 t4 s)
  | Clear c => snd (clear c s)
  end.

(** The readings of a list recorded one after the other. *)
Definition record_all (s : state) (rs : list (Z * payload)) : state :=
  fold_left (fun s r => saveReading (fst r) (snd r) s) rs s.

(** The reading [saveReading] builds. *)
Definition reading_of (r : Z * payload) : reading :=
  mkReading (fst r) (toISOString (fst r)) (snd r).

(** The buffer after the push and the shift of [saveReading]. *)
Definition pushed (s : state) (r : reading) : list reading :=
  if (maxStorageItems s <? List.length (data (sessionData s) ++ [r]))%nat
  then tl (data (sessionData s) ++ [r])
  else (data (sessionData s) ++ [r])%list.

(** The storage never answers a write with a quota-exceeded error. *)
Definition no_quota_failure (answers : nat -> outcome) : Prop :=
  forall k, answers k <> QuotaExceededError.

(** The capacity is 1000, the buffer is within it and the count of the
    metadata is the length of the buffer. *)
Record invariant (s : state) : Prop := {
  inv_max : maxStorageItems s = 1000%nat;
  inv_length : (List.length (data (sessionData s)) <= 1000)%nat;
  inv_total : totalReadings (meta (sessionData s))
              = List.length (data (sessionData s))
}.

(** The last 1000 elements of a list. *)
Definition window (l : list reading) : list reading :=
  skipn (List.length l - 1000) l.

(** A reading of the wire format's example, and 1001 of them at the
    instants 1 to 1001. *)
Definition sample_payload : payload :=
  mkPayload (of_Z 72) (of_Z 97) (of_Z 15) "GOOD" true false.

Definition sample_readings : list (Z * payload) :=
  map (fun i => (Z.of_nat i, sample_payload)) (seq 1 1001).

(** A storage that accepts every write. *)
Definition always_stored : nat -> outcome := fun _ => Stored.

(** A storage whose quota is exceeded at one write (counted from 0). *)
Definition quota_at (n : nat) : nat -> outcome :=
  fun k => if Nat.eqb k n then QuotaExceededError else Stored.

(** The text of the alert raised on a quota failure. *)
Definition quota_warning : string :=
  "Storage quota exceeded. Clearing old data...".

(** A storage whose quota is exceeded at every write. *)
Definition always_full : nat -> outcome := fun _ => QuotaExceededError.

(** A store holding [n] sample readings, none of them written yet. *)
Definition store_with (n : nat) (answers : nat -> outcome) : state :=
  mkState 1000
    (mkSession (map reading_of (firstn n sample_readings))
       (mkMetadata (Some 1) None n None (Some (Z.of_nat n))))
    (Some 1)
    (mkBrowser None 0 answers [] [] []).

(** A session object as the constructor expects it: [data] an array and
    [metadata] an object with the four fields of the default. *)
Definition well_formed (v : jsval) : Prop :=
  (exists items own, get v "data" = Some (VArr items own)) /\
  (exists m, get v "metadata" = Some (VObj m) /\
             lookup "sessionStart" m <> None /\
             lookup "sessionEnd" m <> None /\
             lookup "totalReadings" m <> None /\
             lookup "exportTimestamp" m <> None).

(** What [JSON.parse] gives back for an array element written by
    [JSON.stringify]. *)
Definition reparsed (v : jsval) : jsval :=
  of_json (match to_json v with Some j => j | None => JNull end).

(** A number that is neither NaN nor an infinity. *)
Definition finite (n : number) : Prop := exists q, n = Fin q.

(** The three numbers of the reading are finite. *)
Definition finite_reading (r : reading) : Prop :=
  finite (heartRate (sample r)) /\ finite (spO2 (sample r)) /\
  finite (squatCount (sample r)).

(** The heart rates and SpO2 values that are numbers, and the squat counts,
    of the readings in the buffer, in order. *)
Definition heart_rates (s : state) : list number :=
  filter (fun v => negb (isNaN v))
    (map (fun r => heartRate (sample r)) (data (sessionData s))).

Definition spO2_values (s : state) : list number :=
  filter (fun v => negb (isNaN v))
    (map (fun r => spO2 (sample r)) (data (sessionData s))).

Definition squat_counts (s : state) : list number :=
  map (fun r => squatCount (sample r)) (data (sessionData s)).

(** [getStats]'s average of a list of values. *)
Definition average (vs : list number) : number :=
  Math_round (div (fold_left add vs (of_Z 0)) (of_nat (List.length vs))).

(** null or undefined. *)
Definition nullish (v : jsval) : Prop := v = VNull \/ v = VUndefined.

(** [v] is the mean of the values, rounded to the nearest integer (a tie
    going up), when the values are integers of at most 32 bits and there
    are at most 1000 of them, the capacity of the buffer.  For such values
    the sum is exact in binary64 and the rounding of the quotient does not
    reach a half-integer; for other values the result is the one of the
    binary64 arithmetic ([average]). *)
Definition rounded_mean_of (vs : list number) (v : jsval) : Prop :=
  forall zs, vs = map of_Z zs -> zs <> [] ->
  (List.length zs <= 1000)%nat -> Forall small zs ->
  exists z, v = VNum (of_Z z) /\
            (inject_Z z - (1 # 2) <= mean (map inject_Z zs))%Q /\
            (mean (map inject_Z zs) < inject_Z z + (1 # 2))%Q.

(** [v] is an element of the list that no element is under. *)
Definition least_of (vs : list number) (v : jsval) : Prop :=
  exists m, v = VNum m /\ In m vs /\ forall x, In x vs -> le m x = true.

(** [v] is an element of the list that no element is over. *)
Definition greatest_of (vs : list number) (v : jsval) : Prop :=
  exists m, v = VNum m /\ In m vs /\ forall x, In x vs -> le x m = true.

(** Three readings with heart rates 72, NaN and 75.5, SpO2 97, 96 and NaN,
    and squat counts 15, 16 and 17. *)
Definition three_readings : state :=
  mkState 1000
    (mkSession
       [ mkReading 1 (toISOString 1)
           (mkPayload (of_Z 72) (of_Z 97) (of_Z 15) "GOOD" true false);
         mkReading 2 (toISOString 2)
           (mkPayload NaN (of_Z 96) (of_Z 16) "GOOD" false false);
         mkReading 3 (toISOString 3)
           (mkPayload (Fin (151 # 2)) NaN (of_Z 17) "BAD" true false) ]
       (mkMetadata (Some 1) None 3 None (Some 3)))
    (Some 1)
    (mkBrowser None 0 always_stored [] [] []).

(** Four readings with the heart rates 94.3, 138.9, 82.1 and 110.7. *)
Definition fractional_readings : state :=
  mkState 1000
    (mkSession
       (map (fun r => mkReading (fst r) (toISOString (fst r))
                        (mkPayload (Fin (snd r)) (of_Z 97) (of_Z 15) "GOOD"
                           true false))
          [ (1, 943 # 10); (2, 1389 # 10); (3, 821 # 10); (4, 1107 # 10) ])
       (mkMetadata (Some 1) None 4 None (Some 4)))
    (Some 1)
    (mkBrowser None 0 always_stored [] [] []).

End StorageSpec.

(** * Properties *)

(** ** Numbers *)

Module NumberFacts.
Import JS NumberSpec.

Lemma in_band_iff (lo hi : Z) (v : number) :
  ge v (of_Z lo) && le v (of_Z hi) = true <-> between lo hi v.
Proof.
  unfold between, ge, of_Z. split.
  - intros H. apply andb_true_iff in H. destruct H as [Hlo Hhi].
    destruct v as [ | | | q]; simpl in Hlo, Hhi; try discriminate.
    exists q. repeat split; now apply Qle_bool_iff.
  - intros [q [-> [Hlo Hhi]]]. simpl.
    apply andb_true_iff. split; now apply Qle_bool_iff.
Qed.

Lemma between_disjoint (a b c d : Z) (v : number) :
  b < c -> between a b v -> between c d v -> False.
Proof.
  intros Hbc [q [Hq [_ Hhi]]] [q' [Hq' [Hlo _]]].
  rewrite Hq in Hq'. injection Hq' as <-.
  assert (H : (inject_Z c <= inject_Z b)%Q) by (eapply Qle_trans; eauto).
  rewrite <- Zle_Qle in H. lia.
Qed.

Lemma below_not_between (lo a b : Z) (v : number) :
  lo <= a -> below lo v -> ~ between a b v.
Proof.
  intros Hle [-> | [q [-> Hq]]] [q' [Hq' [Hlo _]]]; [discriminate | ].
  injection Hq' as <-.
  assert (H : (inject_Z a < inject_Z lo)%Q) by (eapply Qle_lt_trans; eauto).
  rewrite <- Zlt_Qlt in H. lia.
Qed.

(** *** The order of numbers *)

Lemma le_not_NaN (a b : number) :
  le a b = true -> isNaN a = false /\ isNaN b = false.
Proof. destruct a, b; simpl; intros H; try discriminate; auto. Qed.

Lemma le_refl (a : number) : isNaN a = false -> le a a = true.
Proof.
  destruct a; simpl; intros H; try discriminate; try reflexivity.
  apply Qle_bool_iff. apply Qle_refl.
Qed.

Lemma le_trans (a b c : number) :
  le a b = true -> le b c = true -> le a c = true.
Proof.
  destruct a, b, c; simpl; intros H1 H2; try discriminate; try reflexivity.
  apply Qle_bool_iff. apply Qle_bool_iff in H1, H2.
  eapply Qle_trans; eauto.
Qed.

Lemma le_total (a b : number) :
  isNaN a = false -> isNaN b = false -> le a b = true \/ le b a = true.
Proof.
  destruct a as [ | | | p], b as [ | | | q]; simpl; intros H1 H2;
    try discriminate; auto.
  destruct (Qlt_le_dec p q) as [H | H].
  - left. apply Qle_bool_iff. now apply Qlt_le_weak.
  - right. now apply Qle_bool_iff.
Qed.

Lemma min2_cases (a b : number) :
  isNaN a = false -> isNaN b = false ->
  (min2 a b = a \/ min2 a b = b) /\
  le (min2 a b) a = true /\ le (min2 a b) b = true.
Proof.
  intros Ha Hb.
  assert (E : min2 a b = if le a b then a else b)
    by (destruct a, b; try discriminate; reflexivity).
  rewrite E. destruct (le a b) eqn:L.
  - repeat split; auto. now apply le_refl.
  - destruct (le_total a b Ha Hb) as [H | H]; [congruence | ].
    repeat split; auto. now apply le_refl.
Qed.

Lemma max2_cases (a b : number) :
  isNaN a = false -> isNaN b = false ->
  (max2 a b = a \/ max2 a b = b) /\
  le a (max2 a b) = true /\ le b (max2 a b) = true.
Proof.
  intros Ha Hb.
  assert (E : max2 a b = if le a b then b else a)
    by (destruct a, b; try discriminate; reflexivity).
  rewrite E. destruct (le a b) eqn:L.
  - repeat split; auto. now apply le_refl.
  - destruct (le_total a b Ha Hb) as [H | H]; [congruence | ].
    repeat split; auto. now apply le_refl.
Qed.

Lemma fold_min2 (l : list number) :
  forall acc,
    isNaN acc = false -> not_NaN l ->
    (fold_left min2 l acc = acc \/ In (fold_left min2 l acc) l) /\
    le (fold_left min2 l acc) acc = true /\
    (forall x, In x l -> le (fold_left min2 l acc) x = true).
Proof.
  induction l as [ | y l IH]; intros acc Hacc Hl; simpl.
  - split; [now left | split; [now apply le_refl | intros x []]].
  - inversion Hl as [ | y' l' Hy Hl']; subst.
    destruct (min2_cases acc y Hacc Hy) as [Hc [H1 H2]].
    assert (Hm : isNaN (min2 acc y) = false)
      by (destruct Hc as [-> | ->]; assumption).
    destruct (IH (min2 acc y) Hm Hl') as [Hin [Hle Hall]].
    repeat split.
    + destruct Hin as [Hin | Hin]; [ | now right; right].
      rewrite Hin. destruct Hc as [-> | ->]; [now left | now right; left].
    + eapply le_trans; eauto.
    + intros x [<- | Hx]; [eapply le_trans; eauto | now apply Hall].
Qed.

Lemma fold_max2 (l : list number) :
  forall acc,
    isNaN acc = false -> not_NaN l ->
    (fold_left max2 l acc = acc \/ In (fold_left max2 l acc) l) /\
    le acc (fold_left max2 l acc) = true /\
    (forall x, In x l -> le x (fold_left max2 l acc) = true).
Proof.
  induction l as [ | y l IH]; intros acc Hacc Hl; simpl.
  - split; [now left | split; [now apply le_refl | intros x []]].
  - inversion Hl as [ | y' l' Hy Hl']; subst.
    destruct (max2_cases acc y Hacc Hy) as [Hc [H1 H2]].
    assert (Hm : isNaN (max2 acc y) = false)
      by (destruct Hc as [-> | ->]; assumption).
    destruct (IH (max2 acc y) Hm Hl') as [Hin [Hle Hall]].
    repeat split.
    + destruct Hin as [Hin | Hin]; [ | now right; right].
      rewrite Hin. destruct Hc as [-> | ->]; [now left | now right; left].
    + eapply le_trans; eauto.
    + intros x [<- | Hx]; [eapply le_trans; eauto | now apply Hall].
Qed.

(** [Math.min] of a non-empty list without NaN is its least element. *)
Lemma Math_min_least (l : list number) :
  l <> [] -> not_NaN l ->
  In (Math_min l) l /\ (forall x, In x l -> le (Math_min l) x = true).
Proof.
  intros Hne Hl. unfold Math_min.
  destruct (fold_min2 l PosInf eq_refl Hl) as [[Hm | Hin] [_ Hall]];
    split; auto.
  destruct l as [ | y l]; [congruence | ].
  pose proof (Hall y (or_introl eq_refl)) as Hy.
  rewrite Hm in Hy. rewrite Hm.
  destruct y; simpl in Hy; try discriminate. now left.
Qed.

(** [Math.max] of a non-empty list without NaN is its greatest element. *)
Lemma Math_max_greatest (l : list number) :
  l <> [] -> not_NaN l ->
  In (Math_max l) l /\ (forall x, In x l -> le x (Math_max l) = true).
Proof.
  intros Hne Hl. unfold Math_max.
  destruct (fold_max2 l NegInf eq_refl Hl) as [[Hm | Hin] [_ Hall]];
    split; auto.
  destruct l as [ | y l]; [congruence | ].
  pose proof (Hall y (or_introl eq_refl)) as Hy.
  rewrite Hm in Hy. rewrite Hm.
  destruct y; simpl in Hy; try discriminate. now left.
Qed.

(** *** Averages *)

(** The rounding of [Math.round] is to the nearest integer, a tie going
    up. *)
Lemma round_nearest (q : Q) :
  (inject_Z (Qfloor (q + (1 # 2))) - (1 # 2) <= q)%Q /\
  (q < inject_Z (Qfloor (q + (1 # 2))) + (1 # 2))%Q.
Proof.
  pose proof (Qfloor_le (q + (1 # 2))) as H1.
  pose proof (Qlt_floor (q + (1 # 2))) as H2.
  rewrite inject_Z_plus in H2.
  change (inject_Z 1) with 1%Q in H2.
  split; lra.
Qed.

(** *** Binary64 rounding *)


Lemma two_power_pos (e : Z) : (0 < 2 ^ e)%Q.
Proof. apply Qpower_0_lt. reflexivity. Qed.

(** Rounding to the nearest integer does not cross an integer. *)
Lemma round_half_even_between (x : Q) (A B : Z) :
  (inject_Z A <= x)%Q -> (x <= inject_Z B)%Q ->
  A <= round_half_even x <= B.
Proof.
  intros HA HB.
  assert (FA : A <= Qfloor x).
  { rewrite <- (Qfloor_Z A). now apply Qfloor_resp_le. }
  assert (FB : Qfloor x <= B).
  { rewrite <- (Qfloor_Z B). now apply Qfloor_resp_le. }
  assert (Up : (0 < x - inject_Z (Qfloor x))%Q -> Qfloor x + 1 <= B).
  { intros Hpos.
    assert (Hlt : (inject_Z (Qfloor x) < inject_Z B)%Q).
    { apply Qlt_le_trans with x; [ | exact HB]. lra. }
    rewrite <- Zlt_Qlt in Hlt. lia. }
  unfold round_half_even.
  destruct (x - inject_Z (Qfloor x) ?= 1 # 2)%Q eqn:C.
  - apply Qeq_alt in C.
    destruct (Z.even (Qfloor x)); [lia | ].
    split; [lia | apply Up; lra].
  - lia.
  - apply Qgt_alt in C. split; [lia | apply Up; lra].
Qed.

Lemma on_grid_le (e g : Z) (x : Q) : e <= g -> on_grid g x -> on_grid e x.
Proof.
  intros Hle [A HA]. exists (A * 2 ^ (g - e)).
  rewrite HA, inject_Z_mult, Zpower_Qpower by lia.
  replace g with ((g - e) + e) at 1 by lia.
  rewrite Qpower_plus by discriminate.
  change (inject_Z 2) with 2%Q. ring.
Qed.

(** The leading bit of a rational under [2 ^ K] is under [K]. *)
Lemma ilog2_le (q : Q) (K : Z) :
  0 <= K -> (Qabs q < inject_Z (2 ^ K))%Q -> ilog2 q < K.
Proof.
  intros HK Hq.
  assert (Hk : Z.log2 (Z.abs (Qnum q)) - Z.log2 (Zpos (Qden q)) <= K).
  { destruct q as [n d]. unfold Qabs, Qlt in Hq. cbn [Qnum Qden inject_Z] in Hq |- *.
    rewrite Z.mul_1_r in Hq.
    assert (L : Z.log2 (Z.abs n) <= Z.log2 (Z.pos d * 2 ^ K)).
    { apply Z.log2_le_mono. rewrite (Z.mul_comm (Z.pos d)). lia. }
    rewrite Z.log2_mul_pow2 in L by lia. lia. }
  unfold ilog2.
  destruct (Qle_bool _ _) eqn:C; [ | lia].
  apply Qle_bool_iff in C.
  assert (Lt : (2 ^ (Z.log2 (Z.abs (Qnum q)) - Z.log2 (Z.pos (Qden q)))
                < 2 ^ K)%Q).
  { apply Qle_lt_trans with (Qabs q); [exact C | ].
    rewrite Zpower_Qpower in Hq by exact HK. exact Hq. }
  apply Qpower_lt_compat_l_inv in Lt; [lia | reflexivity].
Qed.

Lemma quantum_le (q : Q) (K : Z) :
  0 <= K -> (Qabs q < inject_Z (2 ^ K))%Q ->
  quantum q <= Z.max (K - 53) (-1074).
Proof.
  intros HK Hq. pose proof (ilog2_le q K HK Hq). unfold quantum. lia.
Qed.

(** Rounding to binary64 does not cross a number that has no bit under the
    last bit of the numbers around: a rational between two such numbers is
    rounded to a number between them. *)
Lemma binary64_squeeze (q a b : Q) :
  (a <= q)%Q -> (q <= b)%Q ->
  on_grid (quantum q) a -> on_grid (quantum q) b ->
  (- 2 ^ 1024 < a)%Q -> (b < 2 ^ 1024)%Q ->
  exists r, binary64 q = Fin r /\ (a <= r)%Q /\ (r <= b)%Q.
Proof.
  intros Ha Hb [A HA] [B HB] La Lb. unfold binary64.
  destruct (Qeq_bool q 0) eqn:Z0.
  - apply Qeq_bool_iff in Z0. exists 0%Q.
    split; [reflexivity | ]. rewrite <- Z0. split; assumption.
  - set (e := quantum q) in *.
    pose proof (two_power_pos e) as Pe.
    set (m := round_half_even (q / 2 ^ e)).
    assert (Hm : A <= m <= B).
    { apply round_half_even_between.
      - apply Qle_shift_div_l; [exact Pe | ]. now rewrite <- HA.
      - apply Qle_shift_div_r; [exact Pe | ]. now rewrite <- HB. }
    set (r := Qred (inject_Z m * 2 ^ e)).
    assert (Hr : (r == inject_Z m * 2 ^ e)%Q) by apply Qred_correct.
    assert (Lo : (a <= r)%Q).
    { rewrite Hr, HA. apply Qmult_le_compat_r; [ | now apply Qlt_le_weak].
      rewrite <- Zle_Qle. lia. }
    assert (Hi : (r <= b)%Q).
    { rewrite Hr, HB. apply Qmult_le_compat_r; [ | now apply Qlt_le_weak].
      rewrite <- Zle_Qle. lia. }
    assert (Ov : Qle_bool (2 ^ 1024) (Qabs r) = false).
    { destruct (Qle_bool (2 ^ 1024) (Qabs r)) eqn:C; [ | reflexivity].
      apply Qle_bool_iff in C. exfalso.
      apply (Qle_not_lt _ _ C).
      apply Qabs_case; intros _.
      - apply Qle_lt_trans with b; assumption.
      - apply Qle_lt_trans with (- a)%Q; [ | ].
        + apply Qopp_le_compat. exact Lo.
        + apply Qopp_lt_compat in La. now rewrite Qopp_involutive in La. }
    rewrite Ov. exists r. repeat split; assumption.
Qed.

(** An integer under 2^53 is a binary64 number: it is read and rounded as
    itself. *)
Lemma binary64_integer (q : Q) (z : Z) :
  (q == inject_Z z)%Q -> Z.abs z < 2 ^ 53 ->
  exists r, binary64 q = Fin r /\ (r == inject_Z z)%Q.
Proof.
  intros Hq Hz.
  assert (Habs : (Qabs q < inject_Z (2 ^ 53))%Q).
  { rewrite Hq. change (Qabs (inject_Z z)) with (inject_Z (Z.abs z)).
    rewrite <- Zlt_Qlt. exact Hz. }
  pose proof (quantum_le q 53 ltac:(lia) Habs) as He.
  assert (G : on_grid (quantum q) q).
  { apply (on_grid_le _ 0); [lia | ]. exists z. rewrite Hq.
    change (2 ^ 0)%Q with 1%Q. ring. }
  assert (Big : (inject_Z (2 ^ 53) < 2 ^ 1024)%Q) by reflexivity.
  destruct (binary64_squeeze q q q) as [r [Hr [Lo Hi]]];
    try apply Qle_refl; try exact G.
  - apply Qlt_le_trans with (- Qabs q)%Q.
    + apply Qopp_lt_compat. now apply Qlt_trans with (inject_Z (2 ^ 53)).
    + rewrite <- (Qopp_involutive q) at 2. apply Qopp_le_compat.
      rewrite <- Qabs_opp. apply Qle_Qabs.
  - apply Qle_lt_trans with (Qabs q); [apply Qle_Qabs | ].
    now apply Qlt_trans with (inject_Z (2 ^ 53)).
  - exists r. split; [exact Hr | ]. rewrite <- Hq. now apply Qle_antisym.
Qed.

(** The sum of two integers is exact as long as it stays under 2^53. *)
Lemma add_integers (p q : Q) (y z : Z) :
  (p == inject_Z y)%Q -> (q == inject_Z z)%Q ->
  Z.abs y < 2 ^ 53 -> Z.abs z < 2 ^ 53 -> Z.abs (y + z) < 2 ^ 53 ->
  exists r, add (Fin p) (Fin q) = Fin r /\ (r == inject_Z (y + z))%Q.
Proof.
  intros Hp Hq By Bz Byz.
  destruct (binary64_integer p y Hp By) as [p' [Ep Hp']].
  destruct (binary64_integer q z Hq Bz) as [q' [Eq Hq']].
  unfold add, to_binary64. rewrite Ep, Eq.
  apply binary64_integer; [ | exact Byz].
  rewrite Hp', Hq', inject_Z_plus. reflexivity.
Qed.

(** The sum [getStats] computes for integers of at most 32 bits, up to
    2^20 of them, is their sum. *)
Lemma fold_add_integers (zs : list Z) :
  forall (p : Q) (acc k : Z),
    (p == inject_Z acc)%Q ->
    0 <= k -> Z.abs acc <= 2 ^ 31 * k ->
    k + Z.of_nat (List.length zs) <= 2 ^ 20 ->
    Forall small zs ->
    exists r,
      fold_left add (map of_Z zs) (Fin p) = Fin r /\
      (r == inject_Z (fold_left Z.add zs acc))%Q /\
      Z.abs (fold_left Z.add zs acc)
      <= 2 ^ 31 * (k + Z.of_nat (List.length zs)).
Proof.
  induction zs as [ | z zs IH]; intros p acc k Hp Hk Hacc Hlen Hs.
  - exists p. cbn [map fold_left List.length Z.of_nat]. rewrite Z.add_0_r.
    repeat split; assumption.
  - inversion Hs as [ | z' zs' Hz Hzs]; subst. unfold small in Hz.
    cbn [List.length] in Hlen.
    assert (P31 : 2 ^ 31 = 2147483648) by reflexivity.
    assert (P20 : 2 ^ 20 = 1048576) by reflexivity.
    assert (P53 : 2 ^ 53 = 9007199254740992) by reflexivity.
    destruct (add_integers p (inject_Z z) acc z Hp (Qeq_refl _))
      as [r1 [E1 H1]]; try lia.
    change (fold_left add (map of_Z (z :: zs)) (Fin p))
      with (fold_left add (map of_Z zs) (add (Fin p) (Fin (inject_Z z)))).
    change (fold_left Z.add (z :: zs) acc) with (fold_left Z.add zs (acc + z)).
    rewrite E1.
    destruct (IH r1 (acc + z) (k + 1) H1) as [r [E [Hr Hb]]];
      try assumption; try lia.
    exists r. split; [exact E | split; [exact Hr | ]].
    cbn [List.length]. lia.
Qed.

Lemma Qfloor_unique (y : Q) (z : Z) :
  (inject_Z z <= y)%Q -> (y < inject_Z (z + 1))%Q -> Qfloor y = z.
Proof.
  intros Lo Hi.
  assert (A : z <= Qfloor y).
  { rewrite <- (Qfloor_Z z). now apply Qfloor_resp_le. }
  assert (B : Qfloor y < z + 1).
  { rewrite Zlt_Qlt. apply Qle_lt_trans with y; [apply Qfloor_le | exact Hi]. }
  lia.
Qed.

(** The quotient of an integer by a count up to 1024, rounded to binary64
    and then by [Math.round], is the exact quotient rounded to the nearest
    integer, a tie going up: the binary64 number nearest to the quotient
    is on the same side of the half-integers as the quotient, which is at
    least [1 / 2048] away from them when it is not one of them. *)
Lemma round_div_integers (p q : Q) (s n : Z) :
  (p == inject_Z s)%Q -> (q == inject_Z n)%Q ->
  0 < n <= 1024 -> Z.abs s <= 2 ^ 31 * n ->
  Math_round (div (Fin p) (Fin q))
  = Fin (inject_Z (Qfloor (inject_Z s / inject_Z n + (1 # 2)))).
Proof.
  intros Hp Hq Hn Hs.
  assert (P31 : 2 ^ 31 = 2147483648) by reflexivity.
  assert (P53 : 2 ^ 53 = 9007199254740992) by reflexivity.
  destruct (binary64_integer p s Hp) as [p' [Ep Hp']]; [lia | ].
  destruct (binary64_integer q n Hq) as [q' [Eq Hq']]; [lia | ].
  unfold div, to_binary64. rewrite Ep, Eq.
  assert (Nz : ~ (q' == 0)%Q).
  { rewrite Hq'. intros C. unfold Qeq in C. simpl in C. lia. }
  destruct (Qeq_bool q' 0) eqn:Z0; [apply Qeq_bool_iff in Z0; contradiction | ].
  set (x := (p' / q')%Q).
  assert (Hx : (x == inject_Z s / inject_Z n)%Q).
  { unfold x. now rewrite Hp', Hq'. }
  set (z := Qfloor (inject_Z s / inject_Z n + (1 # 2))).
  (* the quotient as a fraction *)
  assert (Hz : z = (2 * s + n) / (2 * n)).
  { unfold z. destruct n as [ | n' | n']; try lia.
    assert (Fr : (inject_Z s / inject_Z (Z.pos n') + (1 # 2)
                  == (2 * s + Z.pos n') # (2 * n'))%Q).
    { rewrite (Qmake_Qdiv (2 * s + Z.pos n')), inject_Z_plus, inject_Z_mult.
      change (inject_Z (Z.pos (2 * n'))) with (inject_Z (2 * Z.pos n')).
      rewrite inject_Z_mult. change (inject_Z 2) with 2%Q.
      field. intros C. unfold Qeq in C. simpl in C. lia. }
    rewrite Fr. reflexivity. }
  pose proof (Z.div_mod (2 * s + n) (2 * n) ltac:(lia)) as DM.
  pose proof (Z.mod_pos_bound (2 * s + n) (2 * n) ltac:(lia)) as MB.
  rewrite <- Hz in DM.
  (* bounds on the quotient *)
  assert (Xlo : (inject_Z z - (1 # 2) <= x)%Q).
  { rewrite Hx. apply (proj1 (round_nearest _)). }
  assert (Xhi : (x <= inject_Z z + (1 # 2) - (1 # 2048))%Q).
  { rewrite Hx.
    apply Qle_shift_div_r; [rewrite <- (Zlt_Qlt 0); lia | ].
    assert (I : (2048 * s <= (2048 * z + 1023) * n)%Z) by nia.
    rewrite Zle_Qle in I.
    rewrite !inject_Z_mult, inject_Z_plus, inject_Z_mult in I.
    change (inject_Z 2048) with 2048%Q in I.
    change (inject_Z 1023) with 1023%Q in I.
    lra. }
  assert (Zb : Z.abs z <= 2 ^ 31 + 1) by nia.
  assert (Habs : (Qabs x < inject_Z (2 ^ 32))%Q).
  { apply Qabs_case; intros _.
    - apply Qle_lt_trans with (inject_Z z + (1 # 2) - (1 # 2048))%Q;
        [exact Xhi | ].
      assert (I : (inject_Z z <= inject_Z (2 ^ 31 + 1))%Q)
        by (rewrite <- Zle_Qle; lia).
      change (inject_Z (2 ^ 31 + 1)) with 2147483649%Q in I.
      change (inject_Z (2 ^ 32)) with 4294967296%Q. lra.
    - assert (I : (inject_Z (- (2 ^ 31 + 1)) <= inject_Z z)%Q)
        by (rewrite <- Zle_Qle; lia).
      change (inject_Z (- (2 ^ 31 + 1))) with (- 2147483649)%Q in I.
      change (inject_Z (2 ^ 32)) with 4294967296%Q. lra. }
  pose proof (quantum_le x 32 ltac:(lia) Habs) as He.
  destruct (binary64_squeeze x (inject_Z z - (1 # 2))
              (inject_Z z + (1 # 2) - (1 # 2048)))
    as [r [Er [Lo Hi]]]; try assumption.
  - apply (on_grid_le _ (-1)); [lia | ]. exists (2 * z + -1).
    rewrite inject_Z_plus, inject_Z_mult.
    change (2 ^ (-1))%Q with (1 # 2)%Q. change (inject_Z 2) with 2%Q.
    change (inject_Z (-1)) with (-1 # 1)%Q. ring.
  - apply (on_grid_le _ (-11)); [lia | ]. exists (2048 * z + 1023).
    rewrite inject_Z_plus, inject_Z_mult.
    change (2 ^ (-11))%Q with (1 # 2048)%Q.
    change (inject_Z 2048) with 2048%Q. change (inject_Z 1023) with 1023%Q.
    ring.
  - assert (I : (inject_Z (- (2 ^ 31 + 1)) <= inject_Z z)%Q)
      by (rewrite <- Zle_Qle; lia).
    change (inject_Z (- (2 ^ 31 + 1))) with (- 2147483649)%Q in I.
    apply Qlt_le_trans with (- 2147483650)%Q; [reflexivity | lra].
  - assert (I : (inject_Z z <= inject_Z (2 ^ 31 + 1))%Q)
      by (rewrite <- Zle_Qle; lia).
    change (inject_Z (2 ^ 31 + 1)) with 2147483649%Q in I.
    apply Qle_lt_trans with 2147483650%Q; [lra | reflexivity].
  - rewrite Er. unfold Math_round. do 2 f_equal.
    apply Qfloor_unique.
    + lra.
    + rewrite inject_Z_plus. change (inject_Z 1) with 1%Q. lra.
Qed.

Lemma fold_Qplus_integers (zs : list Z) :
  forall acc,
    (fold_left Qplus (map inject_Z zs) (inject_Z acc)
     == inject_Z (fold_left Z.add zs acc))%Q.
Proof.
  induction zs as [ | z zs IH]; intros acc; [reflexivity | ].
  cbn [map fold_left]. rewrite <- IH.
  assert (G : forall l a b, (a == b)%Q ->
                            (fold_left Qplus l a == fold_left Qplus l b)%Q).
  { induction l as [ | x l IHl]; intros a b Hab; [exact Hab | ].
    cbn [fold_left]. apply IHl. now rewrite Hab. }
  apply G. now rewrite inject_Z_plus.
Qed.

(** The average [getStats] computes for integers of at most 32 bits, up to
    1000 of them, is their mean rounded to the nearest integer, a tie going
    up. *)
Lemma average_integers (zs : list Z) :
  zs <> [] -> (List.length zs <= 1000)%nat -> Forall small zs ->
  Math_round (div (fold_left add (map of_Z zs) (of_Z 0))
                  (of_nat (List.length (map of_Z zs))))
  = Fin (inject_Z (Qfloor (mean (map inject_Z zs) + (1 # 2)))).
Proof.
  intros Hne Hlen Hs.
  assert (P20 : 2 ^ 20 = 1048576) by reflexivity.
  destruct (fold_add_integers zs (inject_Z 0) 0 0) as [r [E [Hr Hb]]];
    try assumption; try lia; [reflexivity | ].
  unfold of_Z at 2. rewrite E, length_map. unfold of_nat, of_Z.
  assert (Hn : 0 < Z.of_nat (List.length zs) <= 1024)
    by (destruct zs; [congruence | cbn [List.length] in *; lia]).
  rewrite (round_div_integers r _ (fold_left Z.add zs 0)
             (Z.of_nat (List.length zs)) Hr (Qeq_refl _) Hn)
    by (rewrite Z.add_0_l in Hb; exact Hb).
  do 2 f_equal. apply Qfloor_comp. unfold mean.
  rewrite length_map.
  change (fold_left Qplus (map inject_Z zs) 0%Q)
    with (fold_left Qplus (map inject_Z zs) (inject_Z 0)).
  now rewrite fold_Qplus_integers.
Qed.

End NumberFacts.

(** ** Objects *)

Module ObjectFacts.
Import JS.

Lemma lookup_set_prop_same (k : string) (v : jsval) (ps : object) :
  lookup k (set_prop k v ps) = Some v.
Proof.
  induction ps as [ | [k' v'] ps IH]; cbn [set_prop lookup].
  - now rewrite String.eqb_refl.
  - destruct (String.eqb k k') eqn:E; cbn [lookup].
    + now rewrite String.eqb_refl.
    + now rewrite E.
Qed.

Lemma lookup_set_prop_other (k k' : string) (v : jsval) (ps : object) :
  k <> k' -> lookup k (set_prop k' v ps) = lookup k ps.
Proof.
  intros Hne. induction ps as [ | [k2 v2] ps IH]; cbn [set_prop lookup].
  - apply String.eqb_neq in Hne. now rewrite Hne.
  - destruct (String.eqb k' k2) eqn:E; cbn [lookup].
    + apply String.eqb_eq in E. subst k2.
      apply String.eqb_neq in Hne. now rewrite Hne.
    + now rewrite IH.
Qed.

End ObjectFacts.

(** ** JSON texts: printing and parsing *)

Module JSONFacts.
Import JS JSON JSONSpec.
Local Open Scope list_scope.
Local Open Scope nat_scope.

Lemma print_starts_value (gap indent : nat) (j : json) (rest : text) :
  starts_value (print gap indent j ++ rest).
Proof.
  destruct j as [ | [ | ] | q | s | [ | x xs] | [ | [k x] ms]]; exact I.
Qed.

Lemma skip_newline (gap indent : nat) (ts : text) :
  skip (newline gap indent ++ ts) = skip ts.
Proof. unfold newline. destruct (Nat.eqb gap 0); reflexivity. Qed.

Lemma skip_starts_value (ts : text) : starts_value ts -> skip ts = ts.
Proof. destruct ts as [ | [] ts]; simpl; intros H; try reflexivity; destruct H. Qed.

Lemma skip_colon (gap : nat) (ts : text) :
  skip (colon gap ++ ts) = Colon :: (if Nat.eqb gap 0 then ts else Space :: ts).
Proof. unfold colon. destruct (Nat.eqb gap 0); reflexivity. Qed.

Lemma parse_value_skip (fuel : nat) (ts : text) :
  parse_value fuel ts = parse_value fuel (skip ts).
Proof.
  assert (Idem : skip (skip ts) = skip ts).
  { induction ts as [ | [] ts IH]; simpl; auto. }
  destruct fuel; simpl; [reflexivity | now rewrite Idem].
Qed.

Lemma parse_value_newline (fuel gap indent : nat) (ts : text) :
  parse_value fuel (newline gap indent ++ ts) = parse_value fuel ts.
Proof.
  rewrite parse_value_skip, skip_newline, <- parse_value_skip. reflexivity.
Qed.

Lemma parse_value_space (fuel gap : nat) (ts : text) :
  parse_value fuel (if Nat.eqb gap 0 then ts else Space :: ts)
  = parse_value fuel ts.
Proof.
  destruct (Nat.eqb gap 0); [reflexivity | ].
  rewrite parse_value_skip. simpl. now rewrite <- parse_value_skip.
Qed.

(** The printed elements are parsed back, given that each is. *)
Lemma parse_print_elements (gap indent : nat) (xs : list json) :
  Forall (fun x => forall fuel rest,
            size x <= fuel ->
            parse_value fuel (print gap (indent + gap) x ++ rest)
            = Some (x, rest)) xs ->
  forall x fuel rest,
    (forall fuel rest,
        size x <= fuel ->
        parse_value fuel (print gap (indent + gap) x ++ rest) = Some (x, rest)) ->
    elements_size (x :: xs) <= fuel ->
    parse_elements fuel
      (newline gap (indent + gap) ++ print gap (indent + gap) x ++
       print_elements gap indent (print gap (indent + gap)) xs ++ rest)
    = Some (x :: xs, rest).
Proof.
  induction 1 as [ | y ys Hy Hys IH]; intros x fuel rest Hx Hfuel;
    (destruct fuel as [ | fuel]; [simpl in Hfuel; lia | ]);
    cbn [elements_size fold_right] in Hfuel;
    cbn [parse_elements];
    rewrite parse_value_newline, Hx by lia.
  - cbn [print_elements]. rewrite <- app_assoc, skip_newline. reflexivity.
  - cbn [print_elements]. cbn [app skip].
    rewrite <- !app_assoc.
    rewrite (IH y fuel rest Hy); [reflexivity | ].
    cbn [elements_size fold_right]. lia.
Qed.

Lemma parse_print_members (gap indent : nat) (ms : list (string * json)) :
  Forall (fun m => forall fuel rest,
            size (snd m) <= fuel ->
            parse_value fuel (print gap (indent + gap) (snd m) ++ rest)
            = Some (snd m, rest)) ms ->
  forall k x fuel rest,
    (forall fuel rest,
        size x <= fuel ->
        parse_value fuel (print gap (indent + gap) x ++ rest) = Some (x, rest)) ->
    members_size ((k, x) :: ms) <= fuel ->
    parse_members fuel
      (newline gap (indent + gap) ++ Str k :: colon gap ++
       print gap (indent + gap) x ++
       print_members gap indent (print gap (indent + gap)) ms ++ rest)
    = Some ((k, x) :: ms, rest).
Proof.
  induction 1 as [ | [k' y] ms' Hy Hms IH]; intros k x fuel rest Hx Hfuel;
    (destruct fuel as [ | fuel]; [simpl in Hfuel; lia | ]);
    cbn [members_size fold_right snd] in Hfuel;
    cbn [parse_members];
    rewrite skip_newline; cbn [skip];
    rewrite skip_colon, parse_value_space, Hx by lia.
  - cbn [print_members]. rewrite <- app_assoc, skip_newline. reflexivity.
  - cbn [print_members]. cbn [app skip].
    rewrite <- !app_assoc. cbn [app].
    rewrite <- !app_assoc.
    rewrite (IH k' y fuel rest Hy); [reflexivity | ].
    cbn [members_size fold_right snd]. lia.
Qed.

(** A printed document is parsed back to itself, whatever follows it. *)
Lemma parse_print_value (gap : nat) (j : json) :
  forall indent fuel rest,
    size j <= fuel ->
    parse_value fuel (print gap indent j ++ rest) = Some (j, rest).
Proof.
  induction j as [ | b | q | s | xs IH | ms IH] using json_nested_ind;
    intros indent fuel rest Hfuel;
    (destruct fuel as [ | fuel]; [simpl in Hfuel; lia | ]).
  - reflexivity.
  - destruct b; reflexivity.
  - reflexivity.
  - reflexivity.
  - destruct xs as [ | x xs]; [reflexivity | ].
    inversion IH as [ | x' xs' Hx Hxs]; subst.
    cbn [print app parse_value skip].
    rewrite <- !app_assoc.
    rewrite (parse_print_elements gap indent xs);
      [ | eapply Forall_impl; [ | exact Hxs]; intros a Ha; apply Ha
        | apply Hx
        | simpl in Hfuel; cbn [elements_size fold_right]; lia ].
    rewrite skip_newline.
    pose proof (print_starts_value gap (indent + gap) x
                  (print_elements gap indent (print gap (indent + gap)) xs ++ rest))
      as Hstart.
    rewrite (skip_starts_value _ Hstart).
    destruct (print gap (indent + gap) x ++ _) as [ | [] ts];
      try destruct Hstart; reflexivity.
  - destruct ms as [ | [k x] ms]; [reflexivity | ].
    inversion IH as [ | m' ms' Hx Hms]; subst. cbn [snd] in Hx.
    cbn [print app parse_value skip].
    rewrite <- !app_assoc. cbn [app]. rewrite <- !app_assoc.
    rewrite (parse_print_members gap indent ms);
      [ | eapply Forall_impl; [ | exact Hms]; intros a Ha; apply Ha
        | apply Hx
        | simpl in Hfuel; cbn [members_size fold_right snd]; lia ].
    rewrite skip_newline. reflexivity.
Qed.

Lemma size_le_length (gap : nat) (j : json) :
  forall indent, size j <= List.length (print gap indent j).
Proof.
  induction j as [ | b | q | s | xs IH | ms IH] using json_nested_ind;
    intros indent; try (simpl; lia).
  - destruct b; simpl; lia.
  - destruct xs as [ | x xs]; [simpl; lia | ].
    inversion IH as [ | x' xs' Hx Hxs]; subst.
    cbn [print size fold_right]. cbn [List.length]. rewrite !length_app.
    specialize (Hx (indent + gap)).
    assert (T : elements_size xs
                < List.length
                    (print_elements gap indent (print gap (indent + gap)) xs)).
    { clear Hx IH. induction Hxs as [ | y ys Hy Hys IHys].
      - simpl. rewrite length_app. simpl. lia.
      - cbn [print_elements elements_size fold_right List.length].
        rewrite !length_app. specialize (Hy (indent + gap)).
        unfold elements_size in IHys. lia. }
    unfold elements_size in T. lia.
  - destruct ms as [ | [k x] ms]; [simpl; lia | ].
    inversion IH as [ | m' ms' Hx Hms]; subst. cbn [snd] in Hx.
    cbn [print size fold_right snd]. cbn [List.length]. rewrite !length_app.
    cbn [List.length]. rewrite !length_app.
    specialize (Hx (indent + gap)).
    assert (T : members_size ms
                < List.length
                    (print_members gap indent (print gap (indent + gap)) ms)).
    { clear Hx IH. induction Hms as [ | [k' y] ms' Hy Hms' IHms].
      - simpl. rewrite length_app. simpl. lia.
      - cbn [print_members members_size fold_right List.length snd].
        rewrite !length_app. cbn [List.length]. rewrite !length_app.
        cbn [snd] in Hy. specialize (Hy (indent + gap)).
        unfold members_size in IHms. lia. }
    unfold members_size in T. lia.
Qed.

(** Parsing a printed document gives the document back, in any
    indentation. *)
Lemma parse_print (gap indent : nat) (j : json) :
  parse (print gap indent j) = Some j.
Proof.
  unfold parse.
  rewrite <- (app_nil_r (print gap indent j)) at 2.
  rewrite parse_print_value; [reflexivity | ].
  pose proof (size_le_length gap j indent). lia.
Qed.

Lemma skip_length (ts : text) : List.length (skip ts) <= List.length ts.
Proof. induction ts as [ | [] ts IH]; simpl; lia. Qed.

(** A successful parse does not depend on the fuel, once the fuel covers
    the size of the document read; and the text read is at least as long
    as that size. *)
Lemma parse_fuel (fuel : nat) :
  (forall ts j rest,
      parse_value fuel ts = Some (j, rest) ->
      size j + List.length rest <= List.length ts /\
      forall fuel', size j <= fuel' -> parse_value fuel' ts = Some (j, rest)) /\
  (forall ts xs rest,
      parse_elements fuel ts = Some (xs, rest) ->
      elements_size xs + List.length rest <= List.length ts /\
      forall fuel', elements_size xs <= fuel' ->
                    parse_elements fuel' ts = Some (xs, rest)) /\
  (forall ts ms rest,
      parse_members fuel ts = Some (ms, rest) ->
      members_size ms + 2 + List.length rest <= List.length ts /\
      forall fuel', members_size ms <= fuel' ->
                    parse_members fuel' ts = Some (ms, rest)).
Proof.
  induction fuel as [ | fuel [IHv [IHe IHm]]];
    [repeat split; intros; discriminate | ].
  split; [ | split].
  - intros ts j rest H. cbn [parse_value] in H.
    pose proof (skip_length ts) as Ls.
    destruct (skip ts) as [ | tok r] eqn:Es; [discriminate | ].
    destruct tok; try discriminate.
    + (* object *)
      pose proof (skip_length r) as Lr.
      destruct (skip r) as [ | tok' r'] eqn:Er.
      * destruct (parse_members fuel r) as [[ms rest'] | ] eqn:Em;
          [ | discriminate].
        injection H as <- <-.
        destruct (IHm _ _ _ Em) as [Len Fu]. cbn [size].
        fold (members_size ms). split; [simpl in *; lia | ].
        intros [ | fuel'] Hf; [lia | ].
        cbn [parse_value]. rewrite Es, Er, Fu by lia. reflexivity.
      * destruct tok';
          try (destruct (parse_members fuel r) as [[ms rest'] | ] eqn:Em;
               [ | discriminate];
               injection H as <- <-;
               destruct (IHm _ _ _ Em) as [Len Fu]; cbn [size];
               fold (members_size ms); (split; [simpl in *; lia | ]);
               intros [ | fuel'] Hf; [lia | ];
               cbn [parse_value]; rewrite Es, Er, Fu by lia; reflexivity).
        injection H as <- <-. split; [simpl in *; lia | ].
        intros [ | fuel'] Hf; [simpl in Hf; lia | ].
        cbn [parse_value]. rewrite Es, Er. reflexivity.
    + (* array *)
      pose proof (skip_length r) as Lr.
      destruct (skip r) as [ | tok' r'] eqn:Er.
      * destruct (parse_elements fuel r) as [[xs rest'] | ] eqn:Ee;
          [ | discriminate].
        injection H as <- <-.
        destruct (IHe _ _ _ Ee) as [Len Fu]. cbn [size].
        fold (elements_size xs). split; [simpl in *; lia | ].
        intros [ | fuel'] Hf; [lia | ].
        cbn [parse_value]. rewrite Es, Er, Fu by lia. reflexivity.
      * destruct tok';
          try (destruct (parse_elements fuel r) as [[xs rest'] | ] eqn:Ee;
               [ | discriminate];
               injection H as <- <-;
               destruct (IHe _ _ _ Ee) as [Len Fu]; cbn [size];
               fold (elements_size xs); (split; [simpl in *; lia | ]);
               intros [ | fuel'] Hf; [lia | ];
               cbn [parse_value]; rewrite Es, Er, Fu by lia; reflexivity).
        injection H as <- <-. split; [simpl in *; lia | ].
        intros [ | fuel'] Hf; [simpl in Hf; lia | ].
        cbn [parse_value]. rewrite Es, Er. reflexivity.
    + injection H as <- <-. split; [simpl in *; lia | ].
      intros [ | fuel'] Hf; [simpl in Hf; lia | ].
      cbn [parse_value]. now rewrite Es.
    + injection H as <- <-. split; [simpl in *; lia | ].
      intros [ | fuel'] Hf; [simpl in Hf; lia | ].
      cbn [parse_value]. now rewrite Es.
    + injection H as <- <-. split; [simpl in *; lia | ].
      intros [ | fuel'] Hf; [simpl in Hf; lia | ].
      cbn [parse_value]. now rewrite Es.
    + injection H as <- <-. split; [simpl in *; lia | ].
      intros [ | fuel'] Hf; [simpl in Hf; lia | ].
      cbn [parse_value]. now rewrite Es.
    + injection H as <- <-. split; [simpl in *; lia | ].
      intros [ | fuel'] Hf; [simpl in Hf; lia | ].
      cbn [parse_value]. now rewrite Es.
  - intros ts xs rest H. cbn [parse_elements] in H.
    destruct (parse_value fuel ts) as [[x r] | ] eqn:Ev; [ | discriminate].
    destruct (IHv _ _ _ Ev) as [Lv Fv].
    pose proof (skip_length r) as Lr.
    destruct (skip r) as [ | tok r'] eqn:Er; [discriminate | ].
    destruct tok; try discriminate.
    + injection H as <- <-. cbn [elements_size fold_right].
      split; [simpl in *; lia | ].
      intros [ | fuel'] Hf; [lia | ].
      cbn [parse_elements]. rewrite Fv, Er by lia. reflexivity.
    + destruct (parse_elements fuel r') as [[xs' rest'] | ] eqn:Ee;
        [ | discriminate].
      injection H as <- <-.
      destruct (IHe _ _ _ Ee) as [Le Fe].
      cbn [elements_size fold_right]. fold (elements_size xs').
      split; [simpl in *; lia | ].
      intros [ | fuel'] Hf; [lia | ].
      cbn [parse_elements]. rewrite Fv, Er, Fe by lia. reflexivity.
  - intros ts ms rest H. cbn [parse_members] in H.
    pose proof (skip_length ts) as Ls.
    destruct (skip ts) as [ | tok r] eqn:Es; [discriminate | ].
    destruct tok; try discriminate.
    pose proof (skip_length r) as Lr.
    destruct (skip r) as [ | tok r1] eqn:Er; [discriminate | ].
    destruct tok; try discriminate.
    destruct (parse_value fuel r1) as [[x r2] | ] eqn:Ev; [ | discriminate].
    destruct (IHv _ _ _ Ev) as [Lv Fv].
    pose proof (skip_length r2) as Lr2.
    destruct (skip r2) as [ | tok r3] eqn:Er2; [discriminate | ].
    destruct tok; try discriminate.
    + injection H as <- <-. cbn [members_size fold_right snd].
      split; [simpl in *; lia | ].
      intros [ | fuel'] Hf; [lia | ].
      cbn [parse_members]. rewrite Es, Er, Fv, Er2 by lia. reflexivity.
    + destruct (parse_members fuel r3) as [[ms' rest'] | ] eqn:Em;
        [ | discriminate].
      injection H as <- <-.
      destruct (IHm _ _ _ Em) as [Lm Fm].
      cbn [members_size fold_right snd]. fold (members_size ms').
      split; [simpl in *; lia | ].
      intros [ | fuel'] Hf; [lia | ].
      cbn [parse_members]. rewrite Es, Er, Fv, Er2, Fm by lia. reflexivity.
Qed.

(** The fuel [parse] gives is enough: a text that is read as a document
    with some fuel is read as that document by [parse]. *)
Lemma parse_complete (fuel : nat) (ts : text) (j : json) (rest : text) :
  parse_value fuel ts = Some (j, rest) -> skip rest = [] -> parse ts = Some j.
Proof.
  intros H Hrest. destruct (proj1 (parse_fuel fuel) _ _ _ H) as [Len Fu].
  unfold parse. rewrite Fu by lia. now rewrite Hrest.
Qed.

(** [JSON.parse] of what [JSON.stringify] returns is the value of the
    document written. *)
Lemma JSON_parse_stringify (gap : nat) (v : jsval) (j : json) :
  to_json v = Some j ->
  JSON_parse (text_of (JSON_stringify gap v)) = Some (of_json j).
Proof.
  intros H. unfold JSON_stringify, JSON_parse. rewrite H. cbn [option_map text_of].
  now rewrite parse_print.
Qed.

End JSONFacts.

(** ** The heart-rate classification *)

Module ClassifierFacts.
Import JS NumberSpec NumberFacts DashboardController.

(** The label [updateHeartRate] shows for a number. *)
Lemma updateHeartRate_status (v : number) (d : view) :
  isNaN v = false ->
  hrStatus (updateHeartRate (Some v) d) =
  if ge v (of_Z 60) && le v (of_Z 100) then "Normal"
  else if ge v (of_Z 101) && le v (of_Z 120) then "Elevated"
  else "High".
Proof.
  intros Hnan. unfold updateHeartRate. rewrite Hnan.
  destruct (ge v (of_Z 60) && le v (of_Z 100));
    [ | destruct (ge v (of_Z 101) && le v (of_Z 120))];
    (destruct (lastHeartRate d) as [last | ];
     [destruct (gt v (add last (of_Z 2)));
      [ | destruct (lt v (sub last (of_Z 2)))] | ]);
    reflexivity.
Qed.

(** A number is in the first band, in the second, or in neither. *)
Lemma band_cases (v : number) :
  (between 60 100 v /\ ge v (of_Z 60) && le v (of_Z 100) = true) \/
  (~ between 60 100 v /\ between 101 120 v /\
   ge v (of_Z 60) && le v (of_Z 100) = false /\
   ge v (of_Z 101) && le v (of_Z 120) = true) \/
  (~ between 60 100 v /\ ~ between 101 120 v /\
   ge v (of_Z 60) && le v (of_Z 100) = false /\
   ge v (of_Z 101) && le v (of_Z 120) = false).
Proof.
  destruct (ge v (of_Z 60) && le v (of_Z 100)) eqn:E1.
  - left. split; [now apply in_band_iff | reflexivity].
  - assert (N1 : ~ between 60 100 v).
    { intros B. apply in_band_iff in B. congruence. }
    destruct (ge v (of_Z 101) && le v (of_Z 120)) eqn:E2.
    + right; left. repeat split; [exact N1 | now apply in_band_iff].
    + right; right. repeat split; [exact N1 | ].
      intros B. apply in_band_iff in B. congruence.
Qed.

(** C8. For every heart-rate value that is a number (not NaN), whatever the
    display showed before, [updateHeartRate] labels it Normal exactly when
    it lies in 60..100, Elevated exactly when it lies in 101..120 and High
    exactly when it lies in neither, which includes every value below 60;
    one of the three labels is always assigned; 100 is Normal and 101 is
    Elevated; and the chart colour of [getHeartRateColor] follows the same
    three bands. *)
Theorem heart_rate_bands (v : number) (d : view) :
  isNaN v = false ->
  (hrStatus (updateHeartRate (Some v) d) = "Normal" <-> between 60 100 v) /\
  (hrStatus (updateHeartRate (Some v) d) = "Elevated" <-> between 101 120 v) /\
  (hrStatus (updateHeartRate (Some v) d) = "High" <->
     ~ between 60 100 v /\ ~ between 101 120 v) /\
  (below 60 v -> hrStatus (updateHeartRate (Some v) d) = "High") /\
  (hrStatus (updateHeartRate (Some v) d) = "Normal" \/
   hrStatus (updateHeartRate (Some v) d) = "Elevated" \/
   hrStatus (updateHeartRate (Some v) d) = "High") /\
  hrStatus (updateHeartRate (Some (of_Z 100)) d) = "Normal" /\
  hrStatus (updateHeartRate (Some (of_Z 101)) d) = "Elevated" /\
  (fst (ChartManager.getHeartRateColor v) = "#10b981" <-> between 60 100 v) /\
  (fst (ChartManager.getHeartRateColor v) = "#f59e0b" <-> between 101 120 v) /\
  (fst (ChartManager.getHeartRateColor v) = "#ef4444" <->
     ~ between 60 100 v /\ ~ between 101 120 v).
Proof.
  intros Hnan.
  rewrite (updateHeartRate_status v d Hnan).
  assert (D : between 60 100 v -> between 101 120 v -> False)
    by (apply between_disjoint; lia).
  unfold ChartManager.getHeartRateColor.
  destruct (band_cases v) as [[B E] | [[N1 [B [E1 E2]]] | [N1 [N2 [E1 E2]]]]].
  - rewrite E. cbn [fst].
    repeat split; try tauto; try discriminate; try (intros [N _]; tauto);
      try (intros B'; exfalso; now apply (D B)).
    intros Hb. exfalso.
    refine (below_not_between 60 60 100 v _ Hb B). lia.
  - rewrite E1, E2. cbn [fst].
    repeat split; try tauto; try discriminate; try (intros [_ N]; tauto).
    intros Hb. exfalso.
    refine (below_not_between 60 101 120 v _ Hb B). lia.
  - rewrite E1, E2. cbn [fst].
    repeat split; try tauto; try discriminate.
Qed.

Lemma heart_rate_bands_witness :
  isNaN (of_Z 59) = false /\
  (hrStatus (updateHeartRate (Some (of_Z 59)) initial) = "High" <->
     ~ between 60 100 (of_Z 59) /\ ~ between 101 120 (of_Z 59)).
Proof.
  split; [reflexivity | ].
  exact (proj1 (proj2 (proj2 (heart_rate_bands (of_Z 59) initial eq_refl)))).
Defined.

End ClassifierFacts.

(** ** The ingestion validator *)

Module ValidatorFacts.
Import JS JSON WebSocketManager ValidatorSpec.

Lemma field_number (data : jsval) (k : string) :
  field_has_type data k "number" = true <-> exists n, get data k = Some (VNum n).
Proof.
  unfold field_has_type.
  destruct (get data k) as [[ | | b | n | s | items own | ps] | ]; simpl;
    split; intros H; try discriminate; try (destruct H; discriminate).
  now exists n.
  reflexivity.
Qed.

Lemma field_string (data : jsval) (k : string) :
  field_has_type data k "string" = true <-> exists s, get data k = Some (VStr s).
Proof.
  unfold field_has_type.
  destruct (get data k) as [[ | | b | n | s | items own | ps] | ]; simpl;
    split; intros H; try discriminate; try (destruct H; discriminate).
  now exists s.
  reflexivity.
Qed.

Lemma field_boolean (data : jsval) (k : string) :
  field_has_type data k "boolean" = true <-> exists b, get data k = Some (VBool b).
Proof.
  unfold field_has_type.
  destruct (get data k) as [[ | | b | n | s | items own | ps] | ]; simpl;
    split; intros H; try discriminate; try (destruct H; discriminate).
  now exists b.
  reflexivity.
Qed.

(** A value with a field holding a number is an object (or an array). *)
Lemma number_field_object (data : jsval) (k : string) (n : number) :
  get data k = Some (VNum n) ->
  String.eqb (typeof data) "object" && negb (is_null data) = true.
Proof.
  destruct data; simpl; intros H; try discriminate; reflexivity.
Qed.

Lemma validateData_iff (data : jsval) :
  validateData data = true <-> well_typed data.
Proof.
  unfold validateData, well_typed.
  rewrite !andb_true_iff, !field_number, !field_string, !field_boolean.
  split.
  - intros [[[[[[[_ _] [h Hh]] [o Ho]] [q Hq]] [p Hp]] [f Hf]] [d Hd]].
    exists h, o, q, p, f, d. tauto.
  - intros [h [o [q [p [f [d [Hh [Ho [Hq [Hp [Hf Hd]]]]]]]]]]].
    pose proof (number_field_object _ _ _ Hh) as Hobj.
    apply andb_true_iff in Hobj.
    repeat split; try tauto; eauto.
Qed.

(** What [JSON.parse] builds is never undefined, nor an array with named
    properties. *)
Lemma parsed_shape (j : json) :
  match of_json j with
  | VUndefined => False
  | VArr _ own => own = []
  | _ => True
  end.
Proof. destruct j; simpl; auto. Qed.

Lemma payload_of_iff (ps : object) :
  well_typed (VObj ps) <-> exists p, StorageManager.payload_of (VObj ps) = Some p.
Proof.
  unfold well_typed, StorageManager.payload_of, get, or_undefined. split.
  - intros [h [o [q [p [f [d [Hh [Ho [Hq [Hp [Hf Hd]]]]]]]]]]].
    destruct (lookup "heartRate" ps) as [x1 | ]; [ | discriminate].
    destruct (lookup "spO2" ps) as [x2 | ]; [ | discriminate].
    destruct (lookup "squatCount" ps) as [x3 | ]; [ | discriminate].
    destruct (lookup "postureStatus" ps) as [x4 | ]; [ | discriminate].
    destruct (lookup "fingerDetected" ps) as [x5 | ]; [ | discriminate].
    destruct (lookup "fallDetected" ps) as [x6 | ]; [ | discriminate].
    injection Hh as ->. injection Ho as ->. injection Hq as ->.
    injection Hp as ->. injection Hf as ->. injection Hd as ->.
    eexists. reflexivity.
  - intros [p Hp].
    destruct (lookup "heartRate" ps) as [[ | | | h | | | ] | ]; try discriminate.
    destruct (lookup "spO2" ps) as [[ | | | o | | | ] | ]; try discriminate.
    destruct (lookup "squatCount" ps) as [[ | | | q | | | ] | ]; try discriminate.
    destruct (lookup "postureStatus" ps) as [[ | | | | t | | ] | ]; try discriminate.
    destruct (lookup "fingerDetected" ps) as [[ | | f | | | | ] | ]; try discriminate.
    destruct (lookup "fallDetected" ps) as [[ | | d | | | | ] | ]; try discriminate.
    exists h, o, q, t, f, d. repeat split; reflexivity.
Qed.

(** C5. [validateData] accepts a value exactly when its six fields are
    present with their declared types: heartRate, spO2 and squatCount
    numbers, postureStatus a string, fingerDetected and fallDetected
    booleans.  For a decoded payload this is exactly when the typed payload
    exists; and no range is checked: whatever the three numbers (NaN, an
    infinity, a negative value), the string and the two booleans are, the
    payload carrying them is accepted. *)
Theorem validateData_presence_and_type :
  (forall data, validateData data = true <-> well_typed data) /\
  (forall j, validateData (of_json j) = true <->
             exists p, StorageManager.payload_of (of_json j) = Some p) /\
  (forall h o q p f d,
     validateData
       (VObj (StorageManager.js_of_payload (StorageManager.mkPayload h o q p f d)))
     = true).
Proof.
  split; [exact validateData_iff | split].
  - intros j. rewrite validateData_iff.
    pose proof (parsed_shape j) as Hshape.
    destruct (of_json j) as [ | | b | n | t | items own | ps];
      try apply payload_of_iff;
      try subst own;
      (split;
       [ intros [h [_ [_ [_ [_ [_ [Hh _]]]]]]]; discriminate Hh
       | intros [p Hp]; discriminate Hp ]).
  - intros h o q p f d. reflexivity.
Qed.

(** A payload without fallDetected, or with a string where a number is
    due, is rejected. *)
Lemma validateData_rejects_examples :
  validateData
    (VObj [ ("heartRate", VNum (of_Z 72)); ("spO2", VNum (of_Z 97));
            ("squatCount", VNum (of_Z 15)); ("postureStatus", VStr "GOOD");
            ("fingerDetected", VBool true) ]) = false /\
  validateData
    (VObj [ ("heartRate", VStr "72"); ("spO2", VNum (of_Z 97));
            ("squatCount", VNum (of_Z 15)); ("postureStatus", VStr "GOOD");
            ("fingerDetected", VBool true); ("fallDetected", VBool false) ])
  = false /\
  validateData VNull = false /\
  validateData (VArr [] []) = false.
Proof. repeat split; reflexivity. Qed.

End ValidatorFacts.

(** ** The connection manager *)

Module ConnectionFacts.
Import JS JSON WebSocketManager ConnectionSpec.

Lemma run_app (s : state) (es1 es2 : list event) :
  run s (es1 ++ es2) =
  match run s es1 with Some s' => run s' es2 | None => None end.
Proof.
  revert s. induction es1 as [ | e es1 IH]; intros s; simpl; [reflexivity | ].
  destruct (step s e); [apply IH | reflexivity].
Qed.

Lemma failing_run_S (u : string) (n : nat) :
  failing_run u (S n) = (failing_run u n ++ failed_attempt n)%list.
Proof.
  unfold failing_run. rewrite seq_S, map_app, concat_app. reflexivity.
Qed.

Lemma nth_error_repeat_last {A} (x y : A) (n : nat) :
  nth_error (repeat x n ++ [y]) n = Some y.
Proof. induction n; simpl; auto. Qed.

Lemma replace_nth_repeat_last {A} (x y : A) (n : nat) :
  replace_nth n x (repeat x n ++ [y]) = repeat x (S n).
Proof. induction n; simpl; [reflexivity | now f_equal]. Qed.

(** What [scheduleReconnect] does to the attempt counter and to the timers:
    nothing after a manual disconnect; otherwise the counter goes up by one
    first and the delay is computed from the new count. *)
Lemma scheduleReconnect_effect (s : state) :
  reconnectAttempts (this (scheduleReconnect s)) =
    (if isManualDisconnect (this s) then reconnectAttempts (this s)
     else reconnectAttempts (this s) + 1) /\
  scheduled (env (scheduleReconnect s)) =
    (if isManualDisconnect (this s) then scheduled (env s)
     else scheduled (env s) ++
          [(next_timer (env s),
            Z.min (reconnectDelay (this s)
                   * 2 ^ (reconnectAttempts (this (scheduleReconnect s)) - 1))
                  (maxReconnectDelay (this s)))])%list /\
  timers (env (scheduleReconnect s)) =
    (if isManualDisconnect (this s) then timers (env s)
     else timers (env s) ++
          [(next_timer (env s),
            Z.min (reconnectDelay (this s)
                   * 2 ^ (reconnectAttempts (this (scheduleReconnect s)) - 1))
                  (maxReconnectDelay (this s)))])%list.
Proof.
  unfold scheduleReconnect.
  destruct (isManualDisconnect (this s)); simpl; repeat split; reflexivity.
Qed.

Lemma after_connect (u : string) :
  exists s, step fresh (Connect (Some u)) = Some s /\ after_failures 0 s.
Proof.
  eexists. split; [reflexivity | ].
  unfold connect, fresh, create; simpl.
  destruct (String.eqb u ""); simpl; constructor; reflexivity.
Qed.

Lemma after_failed_attempt (n : nat) (s : state) :
  after_failures n s ->
  exists s', run s (failed_attempt n) = Some s' /\ after_failures (S n) s'.
Proof.
  intros [Hws Hatt Hdel Hmax Hlim Hman Hsock Htim Hnext Hsched Hok].
  destruct s as [m b]; simpl in *.
  unfold failed_attempt, run, step, readyState_of; simpl.
  rewrite Hsock, nth_error_repeat_last.
  unfold onclose, updateConnectionState, scheduleReconnect, with_env, with_this;
    simpl.
  rewrite Hman, Hlim; simpl.
  unfold pending; simpl. rewrite Htim, Hnext; simpl.
  rewrite Nat.eqb_refl; simpl.
  unfold connect, busy, readyState_of; simpl.
  rewrite Hws, Hsock, replace_nth_repeat_last; simpl.
  change (CLOSED :: repeat CLOSED n) with (repeat CLOSED (S n)).
  rewrite nth_error_repeat by lia.
  rewrite Hok.
  eexists. split; [reflexivity | ].
  constructor; simpl; try reflexivity; try assumption.
  - f_equal. rewrite repeat_length. reflexivity.
  - rewrite Hatt. lia.
  - rewrite Nat.eqb_refl. reflexivity.
  - change ((1%nat, backoff 0) :: map (fun i => (S i, backoff i)) (seq 1 n))
      with (map (fun i => (S i, backoff i)) (seq 0 (S n))).
    rewrite Hsched, seq_S, map_app. simpl. unfold backoff.
    rewrite Hdel, Hmax, Hatt.
    replace (Z.of_nat n + 1 - 1) with (Z.of_nat n) by lia. reflexivity.
Qed.

Lemma failing_run_state (u : string) (n : nat) :
  exists s, run fresh (failing_run u n) = Some s /\ after_failures n s.
Proof.
  induction n as [ | n [s [Hrun Hs]]].
  - destruct (after_connect u) as [s [Hstep Hs]].
    exists s. split; [ | exact Hs].
    unfold failing_run; simpl. simpl in Hstep.
    injection Hstep as <-. reflexivity.
  - destruct (after_failed_attempt n s Hs) as [s' [Hrun' Hs']].
    exists s'. split; [ | exact Hs'].
    now rewrite failing_run_S, run_app, Hrun.
Qed.

(** C3. From a fresh manager (no attempt yet, base delay 1000 ms, cap
    30000 ms) the reconnect timers set along consecutive failed attempts
    have the delays 1000, 2000, 4000, 8000, 16000, 30000 and 30000 ms for
    attempts 1 to 7; in general the timer of attempt [i + 1] has delay
    [min (1000 * 2 ^ i) 30000], and [scheduleReconnect] increments the
    attempt counter before it computes
    [min (reconnectDelay * 2 ^ (reconnectAttempts - 1)) maxReconnectDelay]. *)
Theorem reconnect_backoff_delays :
  (forall u, option_map delays (run fresh (failing_run u 7)) =
             Some [1000; 2000; 4000; 8000; 16000; 30000; 30000]) /\
  (forall u n, exists s,
      run fresh (failing_run u n) = Some s /\
      reconnectAttempts (this s) = Z.of_nat n /\
      delays s = map backoff (seq 0 n)) /\
  (forall s,
      reconnectAttempts (this (scheduleReconnect s)) =
        (if isManualDisconnect (this s) then reconnectAttempts (this s)
         else reconnectAttempts (this s) + 1) /\
      delays (scheduleReconnect s) =
        (if isManualDisconnect (this s) then delays s
         else delays s ++
              [Z.min (reconnectDelay (this s)
                      * 2 ^ (reconnectAttempts (this (scheduleReconnect s)) - 1))
                     (maxReconnectDelay (this s))])%list).
Proof.
  assert (General : forall u n, exists s,
             run fresh (failing_run u n) = Some s /\
             reconnectAttempts (this s) = Z.of_nat n /\
             delays s = map backoff (seq 0 n)).
  { intros u n. destruct (failing_run_state u n) as [s [Hrun Hs]].
    exists s. repeat split; [exact Hrun | apply Hs | ].
    unfold delays. rewrite (af_scheduled _ _ Hs), map_map. reflexivity. }
  split; [ | split; [exact General | ]].
  - intros u. destruct (General u 7%nat) as [s [Hrun [_ Hd]]].
    rewrite Hrun. simpl. rewrite Hd. reflexivity.
  - intros s. destruct (scheduleReconnect_effect s) as [Ha [Hs _]].
    split; [exact Ha | ].
    unfold delays. rewrite Hs.
    destruct (isManualDisconnect (this s)); [reflexivity | ].
    rewrite map_app. reflexivity.
Qed.

(** *** Manual disconnect *)

(** In the manual-disconnect state [scheduleReconnect] does nothing. *)
Lemma scheduleReconnect_manual (s : state) :
  isManualDisconnect (this s) = true -> scheduleReconnect s = s.
Proof. intros H. unfold scheduleReconnect. now rewrite H. Qed.

(** In the manual-disconnect state a transport close sets no timer. *)
Lemma onclose_manual (code : Z) (s : state) :
  isManualDisconnect (this s) = true ->
  isManualDisconnect (this (onclose code s)) = true /\
  timers (env (onclose code s)) = timers (env s) /\
  scheduled (env (onclose code s)) = scheduled (env s).
Proof.
  intros H. unfold onclose. simpl. rewrite H. simpl. now rewrite H.
Qed.

Lemma clearTimeout_not_pending (t : nat) (b : browser) :
  pending t (clearTimeout t b) = false.
Proof.
  unfold pending, clearTimeout. simpl.
  induction (timers b) as [ | [t' d] l IH]; simpl; [reflexivity | ].
  destruct (Nat.eqb t' t) eqn:E; simpl; [exact IH | ].
  now rewrite E.
Qed.

(** [disconnect] sets the manual flag, cancels the timer whose handle is in
    [reconnectTimeout] and no other, and sets no timer. *)
Lemma disconnect_effect (s : state) :
  isManualDisconnect (this (disconnect s)) = true /\
  scheduled (env (disconnect s)) = scheduled (env s) /\
  timers (env (disconnect s)) =
    match reconnectTimeout (this s) with
    | Some t =>
        if Nat.eqb t 0 then timers (env s)
        else filter (fun p => negb (Nat.eqb (fst p) t)) (timers (env s))
    | None => timers (env s)
    end.
Proof.
  destruct s as [[u w a ma rd mrd rt man lmt st mc lsm] b].
  unfold disconnect. simpl.
  destruct rt as [t | ]; [destruct (Nat.eqb t 0) | ];
    destruct w as [sock | ]; simpl;
    unfold socket_close, readyState_of; simpl;
    try (destruct (nth_error (sockets b) sock) as [[ | | | ] | ]);
    simpl; auto.
Qed.

Lemma disconnect_cancels_handle (s : state) (t : nat) :
  reconnectTimeout (this s) = Some t -> t <> 0%nat ->
  isManualDisconnect (this (disconnect s)) = true /\
  pending t (env (disconnect s)) = false.
Proof.
  intros Ht Hnz. destruct (disconnect_effect s) as [A [_ C]].
  split; [exact A | ].
  unfold pending. rewrite C, Ht.
  apply Nat.eqb_neq in Hnz. rewrite Hnz.
  exact (clearTimeout_not_pending t (env s)).
Qed.

(** Events other than a call of [connect], from a manual-disconnect state
    with no timer pending: the state stays manual and no timer is ever
    set. *)
Lemma manual_disconnect_quiescent (es : list event) :
  forall s s',
    isManualDisconnect (this s) = true ->
    timers (env s) = [] ->
    forallb (fun e => negb (is_connect e)) es = true ->
    run s es = Some s' ->
    isManualDisconnect (this s') = true /\
    timers (env s') = [] /\
    scheduled (env s') = scheduled (env s).
Proof.
  induction es as [ | e es IH]; intros s s' Hman Htim Hes Hrun; simpl in Hrun.
  - injection Hrun as <-. auto.
  - simpl in Hes. apply andb_true_iff in Hes. destruct Hes as [He Hes].
    destruct (step s e) as [s1 | ] eqn:Hstep; [ | discriminate].
    assert (H1 : isManualDisconnect (this s1) = true /\
                 timers (env s1) = [] /\
                 scheduled (env s1) = scheduled (env s)).
    { destruct e as [u | | sock now | sock now frame | sock | sock code | t];
        simpl in Hstep; try discriminate He.
      - injection Hstep as <-.
        destruct (disconnect_effect s) as [A [B C]].
        rewrite A, B, C, Htim.
        destruct (reconnectTimeout (this s)) as [t | ];
          [destruct (Nat.eqb t 0) | ]; auto.
      - destruct (readyState_of sock (env s)) as [[ | | | ] | ];
          try discriminate.
        injection Hstep as <-. simpl. auto.
      - destruct (readyState_of sock (env s)) as [[ | | | ] | ];
          try discriminate.
        injection Hstep as <-. unfold onmessage. simpl.
        destruct (JSON_parse frame) as [data | ];
          [destruct (validateData data) | ];
          simpl; auto.
      - destruct (readyState_of sock (env s)) as [[ | | | ] | ];
          try discriminate; injection Hstep as <-; simpl; auto.
      - destruct (readyState_of sock (env s)) as [[ | | | ] | ];
          try discriminate; injection Hstep as <-;
          (destruct (onclose_manual code
                       (with_env (set_readyState sock CLOSED) s) Hman)
             as [A [B C]]; rewrite A, B, C; simpl; auto).
      - unfold pending in Hstep. rewrite Htim in Hstep. discriminate. }
    destruct H1 as [Hman1 [Htim1 Hsched1]].
    destruct (IH s1 s' Hman1 Htim1 Hes Hrun) as [A [B C]].
    rewrite C, Hsched1. auto.
Qed.

(** C4, at the input where it fails.  [scheduleReconnect] overwrites the
    handle in [reconnectTimeout] without cancelling the timer it held, so
    two timers can be pending and [disconnect] cancels only the later one.
    After the manual disconnect (manual flag set, handle cleared) the first
    timer is still pending; when it expires [connect] clears the manual
    flag and opens a third socket, and the close of that socket sets a
    further reconnect timer: reconnection goes on although the user never
    called [connect] again. *)
Theorem disconnect_leaves_stale_timer :
  option_map summary (run fresh reconnect_then_disconnect) =
    Some (true, None, [(1%nat, 1000)], [CLOSED; CLOSED], 2) /\
  option_map summary
    (run fresh (reconnect_then_disconnect ++ [Timeout 1])) =
    Some (false, None, [], [CLOSED; CLOSED; CONNECTING], 2) /\
  option_map summary
    (run fresh (reconnect_then_disconnect ++ [Timeout 1; Close 2 1006])) =
    Some (false, Some 3%nat, [(3%nat, 4000)], [CLOSED; CLOSED; CLOSED], 3).
Proof.
  split; [ | split]; vm_compute; reflexivity.
Qed.

End ConnectionFacts.

(** ** The session store *)

Module StorageFacts.
Import JS JSON JSONFacts StorageManager NumberSpec NumberFacts StorageSpec.

Lemma truncated_length (s : state) :
  (keepCount < List.length (data (sessionData s)))%nat ->
  List.length (data (sessionData (truncated s))) = keepCount.
Proof.
  intros H. unfold truncated. simpl. rewrite length_skipn. lia.
Qed.

Lemma persist_fuel_S (fuel : nat) (s : state) :
  persist_fuel (S fuel) s =
  match next_answer s with
  | QuotaExceededError => clearOldData_fuel fuel (write s)
  | _ => Some (write s)
  end.
Proof.
  cbn [persist_fuel]. unfold write, next_answer, setItem. cbn [fst snd].
  fold (doc_of s).
  destruct (setItem_result (env s) (writes (env s))); reflexivity.
Qed.

Lemma clearOldData_fuel_S (fuel : nat) (s : state) :
  clearOldData_fuel (S fuel) s =
  if (keepCount <? List.length (data (sessionData s)))%nat
  then persist_fuel fuel (truncated s)
  else Some s.
Proof. reflexivity. Qed.

(** [persist] and [clearOldData] return, and with any fuel from four on
    they return the same state: one write; after a quota failure with more
    than [keepCount] readings buffered, the truncation and one more write. *)
Lemma persist_fuel_enough (fuel : nat) (s : state) :
  (4 <= fuel)%nat ->
  persist_fuel fuel s =
  Some (match next_answer s with
        | QuotaExceededError =>
            if (keepCount <? List.length (data (sessionData s)))%nat
            then write (truncated (write s))
            else write s
        | _ => write s
        end).
Proof.
  intros Hfuel.
  destruct fuel as [ | [ | [ | [ | fuel]]]]; try lia. clear Hfuel.
  rewrite persist_fuel_S.
  destruct (next_answer s); try reflexivity.
  rewrite clearOldData_fuel_S.
  change (data (sessionData (write s))) with (data (sessionData s)).
  destruct (keepCount <? List.length (data (sessionData s)))%nat eqn:Hlen;
    [ | reflexivity].
  apply Nat.ltb_lt in Hlen.
  rewrite persist_fuel_S.
  destruct (next_answer (truncated (write s))); try reflexivity.
  rewrite clearOldData_fuel_S.
  change (data (sessionData (write (truncated (write s)))))
    with (data (sessionData (truncated (write s)))).
  rewrite truncated_length by exact Hlen.
  rewrite Nat.ltb_irrefl. reflexivity.
Qed.

Lemma persist_eq (s : state) :
  persist s =
  match next_answer s with
  | QuotaExceededError =>
      if (keepCount <? List.length (data (sessionData s)))%nat
      then write (truncated (write s))
      else write s
  | _ => write s
  end.
Proof.
  unfold persist. now rewrite persist_fuel_enough by lia.
Qed.

(** *** The bound on the buffer *)

Lemma write_fields (s : state) :
  maxStorageItems (write s) = maxStorageItems s /\
  sessionData (write s) = sessionData s /\
  sessionStartTime (write s) = sessionStartTime s /\
  setItem_result (env (write s)) = setItem_result (env s) /\
  writes (env (write s)) = S (writes (env s)).
Proof.
  unfold write, setItem. cbn [fst snd].
  destruct (setItem_result (env s) (writes (env s))); repeat split.
Qed.

(** [persist] leaves the buffer alone or cuts it down to its last
    [keepCount] readings, with the count following. *)
Lemma persist_session (s : state) :
  maxStorageItems (persist s) = maxStorageItems s /\
  setItem_result (env (persist s)) = setItem_result (env s) /\
  (sessionData (persist s) = sessionData s \/
   (next_answer s = QuotaExceededError /\
    (keepCount < List.length (data (sessionData s)))%nat /\
    sessionData (persist s) = sessionData (truncated s))).
Proof.
  rewrite persist_eq.
  destruct (write_fields s) as [M [D [_ [A _]]]].
  assert (Same : maxStorageItems (write s) = maxStorageItems s /\
                 setItem_result (env (write s)) = setItem_result (env s) /\
                 (sessionData (write s) = sessionData s \/
                  (next_answer s = QuotaExceededError /\
                   (keepCount < List.length (data (sessionData s)))%nat /\
                   sessionData (write s) = sessionData (truncated s))))
    by (split; [exact M | split; [exact A | left; exact D]]).
  destruct (next_answer s) eqn:R; try exact Same.
  destruct (keepCount <? List.length (data (sessionData s)))%nat eqn:Hlen;
    try exact Same.
  destruct (write_fields (truncated (write s))) as [M' [D' [_ [A' _]]]].
  rewrite M', D', A'.
  split; [exact M | split; [exact A | right]].
  apply Nat.ltb_lt in Hlen.
  split; [reflexivity | split; [exact Hlen | reflexivity]].
Qed.

Lemma persist_invariant (s : state) : invariant s -> invariant (persist s).
Proof.
  intros [Hmax Hlen Htot].
  destruct (persist_session s) as [M [_ [E | [_ [Hk E]]]]].
  - constructor; rewrite ?M, ?E; assumption.
  - constructor; rewrite ?M, ?E; try assumption.
    + rewrite truncated_length by exact Hk. unfold keepCount. lia.
    + reflexivity.
Qed.

Lemma pushed_length (s : state) (r : reading) :
  (List.length (data (sessionData s)) <= maxStorageItems s)%nat ->
  (List.length (pushed s r) <= maxStorageItems s)%nat.
Proof.
  intros H. unfold pushed. rewrite length_app. simpl.
  destruct (maxStorageItems s <? List.length (data (sessionData s)) + 1)%nat eqn:E.
  - destruct (data (sessionData s)) as [ | x l]; simpl in *; [lia | ].
    rewrite length_app. simpl. lia.
  - apply Nat.ltb_ge in E. rewrite length_app. simpl. lia.
Qed.

(** [saveReading] is the push and shift, the update of the metadata and
    [persist]. *)
Lemma saveReading_eq (now : Z) (d : payload) (s : state) :
  exists m t,
    saveReading now d s =
    persist (mkState (maxStorageItems s)
               (mkSession (pushed s (mkReading now (toISOString now) d)) m)
               t (env s)) /\
    totalReadings m
    = List.length (pushed s (mkReading now (toISOString now) d)).
Proof.
  unfold saveReading, pushed.
  destruct (maxStorageItems s
            <? List.length (data (sessionData s)
                            ++ [mkReading now (toISOString now) d]))%nat;
    cbn [set_session set_data sessionData data meta maxStorageItems];
    (destruct (sessionStart (meta (sessionData s))) as [t0 | ];
     [destruct (t0 =? 0) | ]);
    eexists; eexists; split; reflexivity.
Qed.

Lemma saveReading_invariant (now : Z) (d : payload) (s : state) :
  invariant s -> invariant (saveReading now d s).
Proof.
  intros [Hmax Hlen Htot].
  destruct (saveReading_eq now d s) as [m [t [E Hm]]]. rewrite E.
  apply persist_invariant. constructor; simpl; try assumption.
  rewrite <- Hmax. apply pushed_length. lia.
Qed.

(** The session of a fresh store is the default [loadSessionData] returns
    when nothing is stored. *)
Lemma create_loads_default (answers : nat -> outcome) :
  VObj (js_of_session (sessionData (create answers))) = loadSessionData None.
Proof. reflexivity. Qed.

Lemma create_invariant (answers : nat -> outcome) : invariant (create answers).
Proof. constructor; simpl; try reflexivity. lia. Qed.

Lemma apply_op_invariant (s : state) (o : op) :
  invariant s -> invariant (apply_op s o).
Proof.
  intros Hs. destruct o as [now d | t1 t2 t3 t4 | [ | ]]; simpl.
  - now apply saveReading_invariant.
  - apply persist_invariant. destruct Hs. constructor; assumption.
  - apply persist_invariant. destruct Hs. constructor; simpl; auto. lia.
  - exact Hs.
Qed.

Lemma getStats_totalReadings (s : state) :
  stat "totalReadings" (getStats s)
  = VNum (of_nat (List.length (data (sessionData s)))).
Proof.
  unfold getStats. destruct (data (sessionData s)); reflexivity.
Qed.

(** C1. From a fresh store, whatever the storage answers to the writes and
    however the calls of [saveReading] are interleaved with exports and
    clears, the buffer never holds more than 1000 readings, and the
    [totalReadings] that [getStats] returns is the current length of the
    buffer (as is the count kept in the metadata). *)
Theorem buffer_bounded_and_counted (answers : nat -> outcome) (ops : list op) :
  (List.length (data (sessionData (fold_left apply_op ops (create answers))))
   <= 1000)%nat /\
  stat "totalReadings" (getStats (fold_left apply_op ops (create answers)))
  = VNum (of_nat (List.length
                    (data (sessionData (fold_left apply_op ops (create answers)))))) /\
  totalReadings (meta (sessionData (fold_left apply_op ops (create answers))))
  = List.length (data (sessionData (fold_left apply_op ops (create answers)))).
Proof.
  assert (I : invariant (fold_left apply_op ops (create answers))).
  { generalize (create_invariant answers).
    generalize (create answers) as s.
    induction ops as [ | o ops IH]; intros s Hs; simpl; [exact Hs | ].
    apply IH. now apply apply_op_invariant. }
  destruct I as [_ Hlen Htot].
  split; [exact Hlen | split; [apply getStats_totalReadings | exact Htot]].
Qed.

(** *** Eviction *)

Lemma window_short (l : list reading) :
  (List.length l <= 1000)%nat -> window l = l.
Proof.
  intros H. unfold window.
  replace (List.length l - 1000)%nat with 0%nat by lia. reflexivity.
Qed.

Lemma window_tl (l rest : list reading) :
  (1000 < List.length l)%nat -> window (tl l ++ rest) = window (l ++ rest).
Proof.
  intros H. destruct l as [ | x l]; cbn [List.length] in H; [lia | ].
  unfold window. cbn [tl].
  change (List.length ((x :: l) ++ rest)) with (S (List.length (l ++ rest))).
  assert (Hn : (1000 <= List.length (l ++ rest))%nat)
    by (rewrite length_app; lia).
  replace (S (List.length (l ++ rest)) - 1000)%nat
    with (S (List.length (l ++ rest) - 1000))%nat by lia.
  reflexivity.
Qed.

Lemma persist_no_quota (s : state) :
  no_quota_failure (setItem_result (env s)) -> persist s = write s.
Proof.
  intros H. rewrite persist_eq.
  destruct (next_answer s) eqn:R; try reflexivity.
  exfalso. exact (H _ R).
Qed.

Lemma saveReading_no_quota (now : Z) (d : payload) (s : state) :
  no_quota_failure (setItem_result (env s)) ->
  data (sessionData (saveReading now d s))
  = pushed s (mkReading now (toISOString now) d) /\
  maxStorageItems (saveReading now d s) = maxStorageItems s /\
  setItem_result (env (saveReading now d s)) = setItem_result (env s).
Proof.
  intros H. destruct (saveReading_eq now d s) as [m [t [E _]]].
  rewrite E, persist_no_quota by exact H.
  match goal with
  | |- context [write ?x] => destruct (write_fields x) as [M [D [_ [A _]]]]
  end.
  rewrite M, D, A. repeat split.
Qed.

Lemma record_all_no_quota (rs : list (Z * payload)) :
  forall s,
    maxStorageItems s = 1000%nat ->
    no_quota_failure (setItem_result (env s)) ->
    (List.length (data (sessionData s)) <= 1000)%nat ->
    data (sessionData (record_all s rs))
    = window (data (sessionData s) ++ map reading_of rs).
Proof.
  induction rs as [ | r rs IH]; intros s Hmax Hq Hlen.
  - cbn [record_all fold_left map]. rewrite app_nil_r. symmetry.
    now apply window_short.
  - destruct (saveReading_no_quota (fst r) (snd r) s Hq) as [D [M A]].
    change (record_all s (r :: rs))
      with (record_all (saveReading (fst r) (snd r) s) rs).
    cbn [map]. rewrite IH.
    + rewrite D. unfold pushed. rewrite Hmax.
      fold (reading_of r).
      change (reading_of r :: map reading_of rs)
        with ([reading_of r] ++ map reading_of rs)%list.
      rewrite (app_assoc (data (sessionData s))).
      destruct (1000 <? List.length (data (sessionData s) ++ [reading_of r]))%nat
        eqn:E; [ | reflexivity].
      apply window_tl. now apply Nat.ltb_lt.
    + now rewrite M.
    + now rewrite A.
    + rewrite D. rewrite <- Hmax. apply pushed_length. lia.
Qed.

(** C2, as the code has it.  Starting from an empty session, when none of
    the writes to the storage fails with a quota-exceeded error, after 1001
    readings recorded by [saveReading] the buffer holds exactly 1000
    readings, the first of them is the second reading recorded, and the
    buffer is the readings recorded without the first, in order. *)
Theorem fifo_eviction (answers : nat -> outcome) (rs : list (Z * payload)) :
  no_quota_failure answers ->
  List.length rs = 1001%nat ->
  List.length (data (sessionData (record_all (create answers) rs))) = 1000%nat /\
  hd_error (data (sessionData (record_all (create answers) rs)))
  = option_map reading_of (nth_error rs 1) /\
  data (sessionData (record_all (create answers) rs)) = map reading_of (tl rs).
Proof.
  intros Hq Hlen.
  assert (E : data (sessionData (record_all (create answers) rs))
              = map reading_of (tl rs)).
  { rewrite record_all_no_quota; simpl; try reflexivity; try assumption; try lia.
    unfold window. rewrite length_map, Hlen.
    destruct rs as [ | r rs]; [discriminate | reflexivity]. }
  rewrite E.
  destruct rs as [ | r0 [ | r1 rs]]; try discriminate.
  simpl. simpl in Hlen. rewrite length_map. repeat split. lia.
Qed.

Lemma fifo_eviction_witness :
  List.length
    (data (sessionData (record_all (create always_stored) sample_readings)))
  = 1000%nat /\
  hd_error (data (sessionData (record_all (create always_stored) sample_readings)))
  = option_map reading_of (nth_error sample_readings 1) /\
  data (sessionData (record_all (create always_stored) sample_readings))
  = map reading_of (tl sample_readings).
Proof.
  apply (fifo_eviction always_stored sample_readings).
  - intros k. discriminate.
  - reflexivity.
Defined.

(** C2 as stated fails when a write hits the quota on the way: the write
    of the 601st reading is refused, [persist] keeps the last 500 readings,
    and after the 1001st reading the buffer holds 900 readings of which the
    first is the 102nd recorded. *)
Lemma fifo_eviction_counterexample :
  List.length sample_readings = 1001%nat /\
  List.length
    (data (sessionData (record_all (create (quota_at 600)) sample_readings)))
  = 900%nat /\
  option_map timestamp
    (hd_error
       (data (sessionData (record_all (create (quota_at 600)) sample_readings))))
  = Some 102 /\
  option_map (fun r => timestamp (reading_of r)) (nth_error sample_readings 1)
  = Some 2.
Proof.
  split; [ | split; [ | split]]; vm_compute; reflexivity.
Qed.

(** *** The quota fallback *)

(** C9, as the code has it.  When the write of [persist] fails with a
    quota-exceeded error, [persist] returns all the same (with any fuel
    from four on) and the warning is shown.  If more than 500 readings are
    buffered, the buffer is cut down to its last 500, [totalReadings]
    follows, and the write is tried exactly once more, whatever the storage
    answers then (a second quota failure shows the warning again and
    changes nothing else).  If 500 readings or fewer are buffered, nothing
    is cut and the write is not tried again. *)
Theorem persist_quota_fallback (s : state) :
  next_answer s = QuotaExceededError ->
  (forall fuel, (4 <= fuel)%nat -> persist_fuel fuel s = Some (persist s)) /\
  (exists rest, alerts (env (persist s))
                = (alerts (env s) ++ quota_warning :: rest)%list) /\
  if (500 <? List.length (data (sessionData s)))%nat then
    data (sessionData (persist s))
    = skipn (List.length (data (sessionData s)) - 500) (data (sessionData s)) /\
    List.length (data (sessionData (persist s))) = 500%nat /\
    totalReadings (meta (sessionData (persist s))) = 500%nat /\
    writes (env (persist s)) = S (S (writes (env s))) /\
    (setItem_result (env s) (S (writes (env s))) = Stored ->
     localStorage (env (persist s)) = Some (doc_of (persist s)))
  else
    sessionData (persist s) = sessionData s /\
    writes (env (persist s)) = S (writes (env s)) /\
    localStorage (env (persist s)) = localStorage (env s).
Proof.
  intros R.
  split.
  { intros fuel Hfuel. unfold persist.
    rewrite (persist_fuel_enough fuel s Hfuel).
    now rewrite (persist_fuel_enough 4 s) by lia. }
  rewrite persist_eq, R.
  assert (W : env (write s)
              = alert quota_warning
                  (console_error "Error saving to localStorage:"
                     (mkBrowser (localStorage (env s)) (S (writes (env s)))
                        (setItem_result (env s)) (alerts (env s))
                        (errors (env s)) (downloads (env s))))).
  { unfold write, setItem. cbn [fst snd]. unfold next_answer in R.
    rewrite R. reflexivity. }
  change (keepCount <? List.length (data (sessionData s)))%nat
    with (500 <? List.length (data (sessionData s)))%nat.
  destruct (500 <? List.length (data (sessionData s)))%nat eqn:Hlen.
  - apply Nat.ltb_lt in Hlen.
    set (s2 := truncated (write s)).
    assert (E2 : env s2 = env (write s)) by reflexivity.
    assert (D2 : data (sessionData s2)
                 = skipn (List.length (data (sessionData s)) - 500)
                     (data (sessionData s))) by reflexivity.
    assert (L2 : List.length (data (sessionData s2)) = 500%nat).
    { rewrite D2, length_skipn. lia. }
    assert (T2 : totalReadings (meta (sessionData s2)) = 500%nat).
    { unfold s2, truncated. cbn [sessionData set_session set_meta meta
                                   set_totalReadings totalReadings].
      fold keepCount. exact L2. }
    destruct (write_fields s2) as [_ [D [_ [_ Wr]]]].
    split.
    { unfold write at 1, setItem. cbn [fst snd]. rewrite E2, W.
      cbn [setItem_result writes alert console_error].
      destruct (setItem_result (env s) (S (writes (env s))));
        cbn [report set_env env alert console_error alerts];
        rewrite <- ?app_assoc; eexists; reflexivity. }
    rewrite D, Wr, E2, W. cbn [writes alert console_error].
    repeat split; try assumption.
    intros Ok. unfold write, setItem. cbn [fst snd]. rewrite E2, W.
    cbn [setItem_result writes alert console_error]. rewrite Ok.
    reflexivity.
  - split.
    { rewrite W. cbn [alerts alert console_error]. eexists. reflexivity. }
    rewrite W. repeat split.
Qed.

Lemma persist_quota_fallback_witness :
  data (sessionData (persist (store_with 501 always_full)))
  = skipn 1 (data (sessionData (store_with 501 always_full))) /\
  writes (env (persist (store_with 501 always_full))) = 2%nat.
Proof.
  pose proof (persist_quota_fallback (store_with 501 always_full) eq_refl)
    as [_ [_ H]].
  change (500 <? List.length
                   (data (sessionData (store_with 501 always_full))))%nat
    with true in H.
  destruct H as [D [_ [_ [W _]]]].
  split; [exact D | exact W].
Defined.

(** C9 as stated fails when 500 readings or fewer are buffered: the write
    of a store holding 10 readings is refused for its quota, the warning is
    shown, and [persist] returns after that single write: nothing is tried
    again and nothing reaches the storage. *)
Lemma persist_quota_counterexample :
  next_answer (store_with 10 always_full) = QuotaExceededError /\
  alerts (env (persist (store_with 10 always_full))) = [quota_warning] /\
  writes (env (persist (store_with 10 always_full))) = 1%nat /\
  localStorage (env (persist (store_with 10 always_full))) = None /\
  List.length (data (sessionData (persist (store_with 10 always_full))))
  = 10%nat.
Proof.
  split; [reflexivity | ].
  split; [vm_compute; reflexivity | ].
  split; [vm_compute; reflexivity | ].
  split; vm_compute; reflexivity.
Qed.

(** *** Loading the persisted session *)

Lemma default_session_well_formed :
  well_formed default_session /\
  get default_session "data" = Some (VArr [] []).
Proof.
  split; [ | reflexivity].
  split.
  - exists [], []. reflexivity.
  - eexists. split; [reflexivity | ].
    repeat split; discriminate.
Qed.

(** C10, as the code has it.  [loadSessionData] is total: it returns for
    every stored item.  It returns the default session (an empty [data]
    array and a [metadata] with sessionStart, sessionEnd, totalReadings and
    exportTimestamp) when the item is absent, empty or not a JSON text, and
    when the text denotes null, a number, a string or a boolean.  When the
    text denotes an object or an array it returns that value as parsed,
    after setting [data] to an empty array if [data] was missing or falsy:
    a [data] that is truthy is kept whatever it is, and no [metadata] is
    added or checked. *)
Theorem loadSessionData_result (stored : option text) :
  well_formed default_session /\
  match stored with
  | Some (tok :: t) =>
      match JSON_parse (tok :: t) with
      | Some (VObj ps) =>
          loadSessionData stored =
          VObj (if truthy (or_undefined (lookup "data" ps)) then ps
                else set_prop "data" (VArr [] []) ps)
      | Some (VArr items own) =>
          loadSessionData stored =
          VArr items (if truthy (or_undefined (lookup "data" own)) then own
                      else set_prop "data" (VArr [] []) own)
      | _ => loadSessionData stored = default_session
      end
  | _ => loadSessionData stored = default_session
  end.
Proof.
  split; [exact (proj1 default_session_well_formed) | ].
  destruct stored as [[ | tok t] | ]; try reflexivity.
  unfold loadSessionData.
  destruct (JSON_parse (tok :: t)) as [[ | | b | n | x | items own | ps] | ];
    try reflexivity; cbn [get assign].
  - destruct (truthy (or_undefined (lookup "data" own))); reflexivity.
  - destruct (truthy (or_undefined (lookup "data" ps))); reflexivity.
Qed.

(** C10 as stated fails for a stored object without [metadata], and for
    one whose [data] is not an array: the texts [{}] and [{"data":5}] are
    returned as the objects [{data: []}] and [{data: 5}]. *)
Lemma loadSessionData_counterexample :
  loadSessionData (Some [LBrace; RBrace]) = VObj [("data", VArr [] [])] /\
  get (loadSessionData (Some [LBrace; RBrace])) "metadata" = Some VUndefined /\
  ~ well_formed (loadSessionData (Some [LBrace; RBrace])) /\
  loadSessionData (Some [LBrace; Str "data"; Colon; Num 5; RBrace])
  = VObj [("data", VNum (Fin 5))] /\
  ~ well_formed
      (loadSessionData (Some [LBrace; Str "data"; Colon; Num 5; RBrace])).
Proof.
  split; [reflexivity | ].
  split; [reflexivity | ].
  split.
  { intros [_ [m [Hm _]]]. discriminate Hm. }
  split; [reflexivity | ].
  intros [[items [own Hd]] _]. discriminate Hd.
Qed.

(** *** The JSON export *)

Lemma exportData_eq (sd : session) (t_export t_date : Z) :
  exportData sd t_export t_date =
  [ ("data", VArr (map js_of_reading (data sd)) []);
    ("metadata", js_of_metadata (meta sd));
    ("exportTimestamp", VNum (of_Z t_export));
    ("exportDate", VStr (toISOString t_date)) ].
Proof. reflexivity. Qed.

(** The [data] of a reparsed document that starts with a [data] member. *)
Lemma parsed_data (items : list json) (rest : list (string * json)) :
  ~ In "data" (map fst rest) ->
  get (of_json (JObject (("data", JArray items) :: rest))) "data"
  = Some (VArr (map of_json items) []).
Proof.
  intros Hrest. cbn [of_json get].
  set (d := VArr (map of_json items) []).
  assert (G : forall ms acc,
             ~ In "data" (map fst ms) ->
             lookup "data" acc = Some d ->
             lookup "data"
               ((fix props (ms : list (string * json)) (acc : object) :=
                   match ms with
                   | [] => acc
                   | (k, x) :: rest => props rest (set_prop k (of_json x) acc)
                   end) ms acc) = Some d).
  { induction ms as [ | [k x] ms IH]; intros acc Hk Hacc; [exact Hacc | ].
    apply IH.
    - intros Hin. apply Hk. now right.
    - rewrite ObjectFacts.lookup_set_prop_other; [exact Hacc | ].
      intros <-. apply Hk. now left. }
  rewrite (G rest (set_prop "data" d []) Hrest
             (ObjectFacts.lookup_set_prop_same "data" d [])).
  reflexivity.
Qed.

Lemma reading_roundtrip (r : reading) :
  finite_reading r -> reparsed (js_of_reading r) = js_of_reading r.
Proof.
  destruct r as [t dt [h o q p f d]].
  intros [[h' Hh] [[o' Ho] [q' Hq]]]. simpl in Hh, Ho, Hq. subst.
  reflexivity.
Qed.

Lemma to_json_metadata (m : metadata) :
  exists jm, to_json (js_of_metadata m) = Some jm.
Proof. unfold js_of_metadata. eexists. reflexivity. Qed.

(** The [data] of the re-parsed text of a session object, with or without
    the members [exportJSON] adds, in any indentation. *)
Lemma session_text_data (gap : nat) (sd : session) (extra : object) :
  extra = [] \/
  (exists t d, extra = [ ("exportTimestamp", VNum (of_Z t));
                        ("exportDate", VStr d) ]) ->
  exists v,
    JSON_parse (text_of (JSON_stringify gap (VObj (js_of_session sd ++ extra))))
    = Some v /\
    get v "data"
    = Some (VArr (map (fun r => reparsed (js_of_reading r)) (data sd)) []).
Proof.
  intros Hextra.
  assert (J : exists items rest,
             to_json (VObj (js_of_session sd ++ extra))
             = Some (JObject (("data", JArray items) :: rest)) /\
             ~ In "data" (map fst rest) /\
             map of_json items
             = map (fun r => reparsed (js_of_reading r)) (data sd)).
  { unfold js_of_session.
    destruct (to_json_metadata (meta sd)) as [jm Hjm].
    cbn [app to_json]. rewrite Hjm.
    destruct Hextra as [-> | [t [d ->]]]; cbn [to_json of_Z];
      do 2 eexists; (split; [reflexivity | split]);
      try (rewrite !map_map; reflexivity); cbn [map fst].
    - intros [Hin | Hin]; [discriminate Hin | exact Hin].
    - intros [Hin | [Hin | [Hin | Hin]]]; try discriminate Hin; exact Hin. }
  destruct J as [items [rest [Hj [Hrest Hitems]]]].
  eexists. split; [exact (JSON_parse_stringify gap _ _ Hj) | ].
  now rewrite parsed_data, Hitems.
Qed.

Lemma write_stored (s : state) :
  next_answer s = Stored -> localStorage (env (write s)) = Some (doc_of s).
Proof.
  unfold next_answer, write, setItem. cbn [fst snd]. intros ->. reflexivity.
Qed.

(** C7. The text [exportJSON] downloads (indented by 2) and the text
    [persist] writes for the session as it is at export time are both
    parsed back by [JSON.parse], and the two values have the same [data]
    array: one entry per reading of the buffer, in order, each with the
    field values the persisted entry has.  An entry whose numbers are
    finite is parsed back to the very reading object of the buffer.  When
    the storage accepts the write that ends [exportJSON], the text it then
    holds has this [data] array too. *)
Theorem export_roundtrip (t_export t_date t_file t_meta : Z) (s : state) :
  exists ve vp,
    JSON_parse (fst (exportJSON t_export t_date t_file t_meta s)) = Some ve /\
    JSON_parse (doc_of s) = Some vp /\
    get ve "data" = get vp "data" /\
    get ve "data"
    = Some (VArr (map (fun r => reparsed (js_of_reading r))
                    (data (sessionData s))) []) /\
    (forall r, In r (data (sessionData s)) -> finite_reading r ->
               reparsed (js_of_reading r) = js_of_reading r) /\
    (next_answer s = Stored ->
     exists t vs,
       localStorage (env (snd (exportJSON t_export t_date t_file t_meta s)))
       = Some t /\
       JSON_parse t = Some vs /\
       get vs "data" = get ve "data").
Proof.
  destruct (session_text_data 2 (sessionData s)
              [ ("exportTimestamp", VNum (of_Z t_export));
                ("exportDate", VStr (toISOString t_date)) ])
    as [ve [He Hde]]; [right; eauto | ].
  destruct (session_text_data 0 (sessionData s) []) as [vp [Hp Hdp]];
    [now left | ].
  rewrite app_nil_r in Hp.
  exists ve, vp.
  split; [exact He | ].
  split; [exact Hp | ].
  split; [now rewrite Hde, Hdp | ].
  split; [exact Hde | ].
  split; [intros r _ Hr; now apply reading_roundtrip | ].
  intros Ok. unfold exportJSON. cbn [snd].
  match goal with
  | |- context [persist ?x] => set (s1 := x)
  end.
  assert (N : next_answer s1 = Stored) by exact Ok.
  assert (D : data (sessionData s1) = data (sessionData s)) by reflexivity.
  rewrite persist_eq, N, (write_stored s1 N).
  destruct (session_text_data 0 (sessionData s1) []) as [vs [Hs Hds]];
    [now left | ].
  rewrite app_nil_r in Hs.
  exists (doc_of s1), vs.
  split; [reflexivity | split; [exact Hs | ]].
  now rewrite Hds, Hde, D.
Qed.

Lemma export_roundtrip_witness :
  exists ve vp,
    JSON_parse (fst (exportJSON 10 10 10 10 three_readings)) = Some ve /\
    JSON_parse (doc_of three_readings) = Some vp /\
    get ve "data" = get vp "data" /\
    reparsed (js_of_reading
                (mkReading 1 (toISOString 1)
                   (mkPayload (of_Z 72) (of_Z 97) (of_Z 15) "GOOD" true false)))
    = js_of_reading
        (mkReading 1 (toISOString 1)
           (mkPayload (of_Z 72) (of_Z 97) (of_Z 15) "GOOD" true false)).
Proof.
  destruct (export_roundtrip 10 10 10 10 three_readings)
    as [ve [vp [A [B [C [_ [F _]]]]]]].
  exists ve, vp.
  split; [exact A | split; [exact B | split; [exact C | ]]].
  apply F.
  - left. reflexivity.
  - repeat split; eexists; reflexivity.
Defined.

(** *** Statistics *)

Lemma filter_not_NaN (l : list number) :
  not_NaN (filter (fun v => negb (isNaN v)) l).
Proof.
  apply Forall_forall. intros x Hx. apply filter_In in Hx.
  destruct Hx as [_ Hx]. now apply negb_true_iff in Hx.
Qed.

Lemma getStats_empty (s : state) :
  data (sessionData s) = [] ->
  getStats s =
  [ ("totalReadings", VNum (of_Z 0)); ("sessionStart", VNull);
    ("avgHeartRate", VNull); ("avgSpO2", VNull);
    ("maxSquats", VNum (of_Z 0)) ].
Proof. intros H. unfold getStats. now rewrite H. Qed.

Lemma getStats_nonempty (s : state) (r : reading) (l : list reading) :
  data (sessionData s) = r :: l ->
  stat "avgHeartRate" (getStats s)
  = match heart_rates s with
    | [] => VNull
    | _ => VNum (average (heart_rates s))
    end /\
  stat "avgSpO2" (getStats s)
  = match spO2_values s with
    | [] => VNull
    | _ => VNum (average (spO2_values s))
    end /\
  stat "minHeartRate" (getStats s)
  = match heart_rates s with
    | [] => VNull
    | _ => VNum (Math_min (heart_rates s))
    end /\
  stat "maxHeartRate" (getStats s)
  = match heart_rates s with
    | [] => VNull
    | _ => VNum (Math_max (heart_rates s))
    end /\
  stat "maxSquats" (getStats s) = VNum (Math_max (squat_counts s)).
Proof.
  intros H. unfold getStats, heart_rates, spO2_values, squat_counts, average.
  rewrite H.
  set (hs := filter _ (map (fun r => heartRate (sample r)) (r :: l))).
  set (os := filter _ (map (fun r => spO2 (sample r)) (r :: l))).
  repeat split; try (destruct hs; reflexivity); try (destruct os; reflexivity).
Qed.

Lemma average_rounded_mean (vs : list number) :
  rounded_mean_of vs (VNum (average vs)).
Proof.
  intros zs -> Hne Hlen Hs. unfold average.
  rewrite average_integers by assumption.
  eexists. split; [reflexivity | ]. apply round_nearest.
Qed.

(** C6, as the code has it.  Over the current buffer of readings recorded
    by [saveReading], [getStats] returns the average heart rate and the
    average SpO2 of the entries that are numbers (NaN entries are ignored),
    the least and the greatest heart rate among those entries, and the
    greatest squat count; an aggregate over no entry is null.  An average
    is the sum of the entries, added from left to right in binary64
    arithmetic, divided by their number and rounded by [Math.round]
    ([average]); when the entries are integers of at most 32 bits, at most
    1000 of them, it is their mean rounded to the nearest integer, a tie
    going up ([rounded_mean_of]).  For an empty buffer it returns null for
    the two averages and for the session start, no minimum and no maximum
    heart rate (undefined), and 0 for the maximum squat count and for the
    number of readings.  It is total: it returns for every buffer. *)
Theorem getStats_aggregates (s : state) :
  (forall x, In x (heart_rates s) <->
             isNaN x = false /\
             exists r, In r (data (sessionData s)) /\ heartRate (sample r) = x) /\
  (forall x, In x (spO2_values s) <->
             isNaN x = false /\
             exists r, In r (data (sessionData s)) /\ spO2 (sample r) = x) /\
  match data (sessionData s) with
  | [] =>
      stat "avgHeartRate" (getStats s) = VNull /\
      stat "avgSpO2" (getStats s) = VNull /\
      stat "sessionStart" (getStats s) = VNull /\
      stat "minHeartRate" (getStats s) = VUndefined /\
      stat "maxHeartRate" (getStats s) = VUndefined /\
      stat "maxSquats" (getStats s) = VNum (of_Z 0) /\
      stat "totalReadings" (getStats s) = VNum (of_Z 0)
  | _ :: _ =>
      match heart_rates s with
      | [] =>
          stat "avgHeartRate" (getStats s) = VNull /\
          stat "minHeartRate" (getStats s) = VNull /\
          stat "maxHeartRate" (getStats s) = VNull
      | _ :: _ =>
          stat "avgHeartRate" (getStats s) = VNum (average (heart_rates s)) /\
          rounded_mean_of (heart_rates s) (stat "avgHeartRate" (getStats s)) /\
          least_of (heart_rates s) (stat "minHeartRate" (getStats s)) /\
          greatest_of (heart_rates s) (stat "maxHeartRate" (getStats s))
      end /\
      match spO2_values s with
      | [] => stat "avgSpO2" (getStats s) = VNull
      | _ :: _ =>
          stat "avgSpO2" (getStats s) = VNum (average (spO2_values s)) /\
          rounded_mean_of (spO2_values s) (stat "avgSpO2" (getStats s))
      end /\
      stat "maxSquats" (getStats s) = VNum (Math_max (squat_counts s)) /\
      (not_NaN (squat_counts s) ->
       greatest_of (squat_counts s) (stat "maxSquats" (getStats s)))
  end.
Proof.
  split; [ | split].
  - intros x. unfold heart_rates. rewrite filter_In, in_map_iff, negb_true_iff.
    split.
    + intros [[r [Hr Hin]] Hx]. eauto.
    + intros [Hx [r [Hin Hr]]]. eauto.
  - intros x. unfold spO2_values. rewrite filter_In, in_map_iff, negb_true_iff.
    split.
    + intros [[r [Hr Hin]] Hx]. eauto.
    + intros [Hx [r [Hin Hr]]]. eauto.
  - destruct (data (sessionData s)) as [ | r l] eqn:Hdata.
    + rewrite (getStats_empty s Hdata). repeat split.
    + destruct (getStats_nonempty s r l Hdata) as [Ha [Ho [Hmin [Hmax Hsq]]]].
      rewrite Ha, Ho, Hmin, Hmax, Hsq.
      pose proof (filter_not_NaN
                    (map (fun r => heartRate (sample r)) (data (sessionData s))))
        as Nh.
      fold (heart_rates s) in Nh.
      split; [ | split; [ | split]].
      * destruct (heart_rates s) as [ | h hs] eqn:Hh; [repeat split | ].
        assert (Hne : h :: hs <> []) by discriminate.
        destruct (Math_min_least _ Hne Nh) as [Hin Hall].
        destruct (Math_max_greatest _ Hne Nh) as [Hin' Hall'].
        split; [reflexivity | split; [apply average_rounded_mean | split]].
        -- eexists. split; [reflexivity | split; assumption].
        -- eexists. split; [reflexivity | split; assumption].
      * destruct (spO2_values s) as [ | o os] eqn:Hos; [reflexivity | ].
        split; [reflexivity | apply average_rounded_mean].
      * reflexivity.
      * intros Nq.
        assert (Hne : squat_counts s <> []).
        { unfold squat_counts. rewrite Hdata. discriminate. }
        destruct (Math_max_greatest _ Hne Nq) as [Hin Hall].
        eexists. split; [reflexivity | split; assumption].
Qed.

Lemma getStats_aggregates_witness :
  stat "avgHeartRate" (getStats three_readings)
  = VNum (average [of_Z 72; Fin (151 # 2)]) /\
  least_of [of_Z 72; Fin (151 # 2)] (stat "minHeartRate" (getStats three_readings)) /\
  stat "maxSquats" (getStats three_readings) = VNum (of_Z 17) /\
  rounded_mean_of [of_Z 72; of_Z 72; of_Z 72]
    (stat "avgHeartRate" (getStats (store_with 3 always_stored))).
Proof.
  pose proof (getStats_aggregates three_readings) as [_ [_ H]].
  cbv beta iota delta [three_readings sessionData data] in H.
  destruct H as [[Ha [_ [Hmin _]]] [_ [Hsq _]]].
  split; [exact Ha | split; [exact Hmin | split; [exact Hsq | ]]].
  pose proof (getStats_aggregates (store_with 3 always_stored)) as [_ [_ H3]].
  exact (proj1 (proj2 (proj1 H3))).
Defined.

(** C6 as stated fails for the empty buffer: the maximum squat count (and
    the number of readings) [getStats] returns is 0, which is neither null
    nor undefined. *)
Lemma getStats_empty_counterexample :
  data (sessionData (create always_stored)) = [] /\
  stat "maxSquats" (getStats (create always_stored)) = VNum (of_Z 0) /\
  ~ nullish (stat "maxSquats" (getStats (create always_stored))) /\
  ~ nullish (stat "totalReadings" (getStats (create always_stored))).
Proof.
  split; [reflexivity | split; [reflexivity | split]];
    intros [H | H]; discriminate H.
Qed.

(** The averages are those of the binary64 arithmetic.  For the heart rates
    94.3, 138.9, 82.1 and 110.7 the sum added from left to right is
    425.99999999999994, its quotient by 4 is 106.49999999999999 and
    [getStats] returns 106, while the mean of the four values is 106.5,
    which rounds to 107.  For integers the sum is exact and the two agree
    ([average_rounded_mean]). *)
Lemma average_follows_binary64 :
  heart_rates fractional_readings
  = [Fin (943 # 10); Fin (1389 # 10); Fin (821 # 10); Fin (1107 # 10)] /\
  fold_left add (heart_rates fractional_readings) (of_Z 0)
  = Fin (7494271254921215 # 17592186044416) /\
  stat "avgHeartRate" (getStats fractional_readings) = VNum (of_Z 106) /\
  (mean [943 # 10; 1389 # 10; 821 # 10; 1107 # 10] == 213 # 2)%Q /\
  Qfloor (mean [943 # 10; 1389 # 10; 821 # 10; 1107 # 10] + (1 # 2)) = 107.
Proof.
  split; [reflexivity | ].
  split; [vm_compute; reflexivity | ].
  split; [vm_compute; reflexivity | ].
  split; reflexivity.
Qed.

End StorageFacts.
